(** * Sleeper proxy and player-cache loader: model and verified properties

    Two independent programs are embedded here:
    - [api/sleeper.py], a pass-through HTTP proxy (module [Sleeper]);
    - [db/scripts/cache_sleeper_players.py], a one-shot loader that upserts
      the upstream player dataset into a local SQLite store (module [Cache]).

    Python values that reach either program come from JSON documents, so a
    single type [json] plays the role of the Python value domain (module
    [Py]). *)

From Stdlib Require Import ZArith Ascii.
From stdpp Require Import base option list strings gmap pretty.

Local Open Scope string_scope.
Local Open Scope Z_scope.

(** ** Python values *)

Module Py.

(** The values [json.loads] can produce: [None], [bool], [int], [float],
    [str], [list] and [dict]. A float is carried by its [repr] text (the
    shortest round-tripping literal, e.g. ["0.5"], ["nan"]); a [dict] is its
    item list in insertion order. *)
#[warnings="-register-all"]
Inductive json : Type :=
| JNull
| JBool (b : bool)
| JInt (n : Z)
| JFloat (repr : string)
| JStr (s : string)
| JArr (items : list json)
| JObj (items : list (string * json)).

(** [bool(x)]. *)
Definition truthy (x : json) : bool :=
  match x with
  | JNull => false
  | JBool b => b
  | JInt n => negb (n =? 0)
  | JFloat r => negb (String.eqb r "0.0" || String.eqb r "-0.0")
  | JStr s => negb (String.eqb s "")
  | JArr l => match l with [] => false | _ => true end
  | JObj l => match l with [] => false | _ => true end
  end.

(** [a or b]. *)
Definition py_or (a b : json) : json := if truthy a then a else b.

(** Lookup in a dict's item list. *)
Fixpoint assoc {A} (k : string) (items : list (string * A)) : option A :=
  match items with
  | [] => None
  | (k', v) :: rest => if String.eqb k k' then Some v else assoc k rest
  end.

(** [p.get(k)] on a dict [p]: the value, or [None] when the key is absent. *)
Definition dict_get (items : list (string * json)) (k : string) : json :=
  default JNull (assoc k items).

(** Exceptions the two programs can meet. *)
Inductive exn : Type :=
| HTTPException (status_code : Z) (detail : string)
| JSONDecodeError
| RequestError (msg : string)
| HTTPStatusError (status_code : Z)
| AttributeError
| TypeError
| OverflowError
| ProgrammingError
| IntegrityError
| OperationalError.

Inductive result (A : Type) : Type :=
| Ok (a : A)
| Raise (e : exn).
Arguments Ok {A} a.
Arguments Raise {A} e.

Definition rbind {A B} (r : result A) (f : A -> result B) : result B :=
  match r with
  | Ok a => f a
  | Raise e => Raise e
  end.

Fixpoint rmap {A B} (f : A -> result B) (l : list A) : result (list B) :=
  match l with
  | [] => Ok []
  | x :: rest =>
      rbind (f x) (fun y => rbind (rmap f rest) (fun ys => Ok (y :: ys)))
  end.

(** [" ".join(xs)] on a list of Python values: every element has to be a
    [str], anything else raises [TypeError]. *)
Fixpoint join_space (xs : list json) : result string :=
  match xs with
  | [] => Ok ""
  | JStr s :: rest =>
      match rest with
      | [] => Ok s
      | _ => rbind (join_space rest) (fun t => Ok (s ++ " " ++ t))
      end
  | _ :: _ => Raise TypeError
  end.

(** The library functions the programs call but do not define. Their
    outputs are never inspected by the programs, so they stay abstract:
    - [json_dumps item_sep key_sep v] is [json.dumps(v, separators=...)];
    - [json_loads] is the decoder behind [resp.json()];
    - [container_str] is [str(x)] for a list or a dict;
    - [real_to_text], [text_to_numeric] and [real_to_integer] are the
      conversions SQLite applies when a column's affinity differs from the
      storage class of the value bound to it. *)
Class Runtime : Type := {
  json_dumps : string -> string -> json -> string;
  json_loads : string -> option json;
  container_str : json -> string;
  real_to_text : string -> string;
  text_to_numeric : string -> option (Z + string);
  real_to_integer : string -> option Z
}.

(** [str(x)]. *)
Definition py_str `{Runtime} (x : json) : string :=
  match x with
  | JNull => "None"
  | JBool true => "True"
  | JBool false => "False"
  | JInt n => pretty n
  | JFloat r => r
  | JStr s => s
  | JArr _ | JObj _ => container_str x
  end.

End Py.

(** ** The proxy, [api/sleeper.py] *)

Module Sleeper.
Import Py.

Definition SLEEPER_BASE_URL : string := "https://api.sleeper.app/v1".

(** What one outbound [client.get] can come back with: a response (status
    code and body text) or an [httpx.RequestError]. *)
Inductive outcome : Type :=
| Response (status_code : Z) (text : string)
| Unreachable (msg : string).

(** A handler is a tree of outbound requests: it returns, raises, or issues
    one GET (URL, query parameters, timeout in seconds) and continues with
    what came back. *)
Inductive prog (A : Type) : Type :=
| Ret (a : A)
| Throw (e : exn)
| HttpGet (url : string) (params : option (list (string * string))) (timeout : Z)
          (k : outcome -> prog A).
Arguments Ret {A} a.
Arguments Throw {A} e.
Arguments HttpGet {A} url params timeout k.

Definition sleeper_get `{Runtime} (path : string)
    (params : option (list (string * string))) : prog json :=
  let url := SLEEPER_BASE_URL ++ path in
  HttpGet url params 10 (fun o =>
    match o with
    | Unreachable e =>
        Throw (HTTPException 502 ("Could not reach Sleeper: " ++ e))
    | Response status_code text =>
        if 400 <=? status_code then Throw (HTTPException status_code text)
        else match json_loads text with
             | Some v => Ret v
             | None => Throw JSONDecodeError
             end
    end).

Definition root : prog json :=
  Ret (JObj [("message", JStr "Hello World")]).

Definition get_user `{Runtime} (user_id : string) : prog json :=
  sleeper_get ("/user/" ++ user_id) None.

Definition get_user_leagues `{Runtime} (user_id season sport : string) : prog json :=
  sleeper_get ("/user/" ++ user_id ++ "/leagues/" ++ sport ++ "/" ++ season) None.

Definition get_league `{Runtime} (league_id : string) : prog json :=
  sleeper_get ("/league/" ++ league_id) None.

(** The source names this handler [get_league] as well; the decorator has
    registered the first one before the name is rebound. *)
Definition get_league_rosters `{Runtime} (league_id : string) : prog json :=
  sleeper_get ("/league/" ++ league_id ++ "/rosters") None.

(** *** Routing *)

(** A path template is split at every ["/"]; a segment written [{name}]
    captures one non-empty, slash-free segment of the request path. *)
Inductive segment : Type :=
| Lit (s : string)
| Param (name : string).

Definition slash : ascii := "/"%char.

Fixpoint split_slash (s : string) : list string :=
  match s with
  | EmptyString => [""]
  | String c rest =>
      if Ascii.eqb c slash then "" :: split_slash rest
      else match split_slash rest with
           | [] => [String c ""]
           | seg :: segs => String c seg :: segs
           end
  end.

(** The segments of an absolute path: ["/a/b"] gives [["a"; "b"]]. *)
Definition split_path (s : string) : option (list string) :=
  match s with
  | String c rest => if Ascii.eqb c slash then Some (split_slash rest) else None
  | EmptyString => None
  end.

Fixpoint strip_last (s : string) : option string :=
  match s with
  | EmptyString => None
  | String c EmptyString => if Ascii.eqb c "}"%char then Some "" else None
  | String c rest => option_map (String c) (strip_last rest)
  end.

Definition compile_segment (s : string) : segment :=
  match s with
  | String c rest =>
      if Ascii.eqb c "{"%char
      then match strip_last rest with Some name => Param name | None => Lit s end
      else Lit s
  | EmptyString => Lit s
  end.

Definition compile_template (t : string) : list segment :=
  map compile_segment (default [] (split_path t)).

Fixpoint match_segments (pat : list segment) (segs : list string)
  : option (list (string * string)) :=
  match pat, segs with
  | [], [] => Some []
  | Lit s :: pat', x :: segs' =>
      if String.eqb s x then match_segments pat' segs' else None
  | Param name :: pat', x :: segs' =>
      if String.eqb x "" then None
      else option_map (cons (name, x)) (match_segments pat' segs')
  | _, _ => None
  end.

Definition match_template (t path : string) : option (list (string * string)) :=
  match split_path path with
  | Some segs => match_segments (compile_template t) segs
  | None => None
  end.

(** The value bound to a handler argument. *)
Definition arg (ps : list (string * string)) (name : string) : string :=
  default "" (assoc name ps).

(** The [@app.get] registrations, in source order. *)
Definition routes `{Runtime} : list (string * (list (string * string) -> prog json)) :=
  [ ("/", fun _ => root);
    ("/sleeper/user/{user_id}", fun ps => get_user (arg ps "user_id"));
    ("/sleeper/{user_id}/leagues/{sport}/{season}",
       fun ps => get_user_leagues (arg ps "user_id") (arg ps "season") (arg ps "sport"));
    ("/sleeper/league/{league_id}", fun ps => get_league (arg ps "league_id"));
    ("/sleeper/league/{league_id}/rosters",
       fun ps => get_league_rosters (arg ps "league_id")) ].

(** The first registered route whose template matches handles the request. *)
Fixpoint first_match {A} (rs : list (string * (list (string * string) -> A)))
    (path : string) : option A :=
  match rs with
  | [] => None
  | (t, h) :: rest =>
      match match_template t path with
      | Some ps => Some (h ps)
      | None => first_match rest path
      end
  end.

Definition dispatch `{Runtime} (path : string) : option (prog json) :=
  first_match routes path.

(** Running a handler against the upstream: [net] lists what successive
    outbound requests come back with. The run yields the URLs requested and
    the handler's result, or no result when [net] is exhausted. *)
Fixpoint run {A} (p : prog A) (net : list outcome) : list string * option (result A) :=
  match p with
  | Ret a => ([], Some (Ok a))
  | Throw e => ([], Some (Raise e))
  | HttpGet url _ _ k =>
      match net with
      | [] => ([url], None)
      | o :: net' => let '(urls, r) := run (k o) net' in (url :: urls, r)
      end
  end.

(** What the client sees: a returned value becomes a 200 response, an
    [HTTPException] a response with its status and its detail, and any other
    exception a 500. *)
Inductive reply : Type :=
| ReplyJson (status : Z) (body : json)
| ReplyError (status : Z) (detail : string)
| ReplyServerError.

Definition respond (r : result json) : reply :=
  match r with
  | Ok v => ReplyJson 200 v
  | Raise (HTTPException st d) => ReplyError st d
  | Raise _ => ReplyServerError
  end.

(** A valid path parameter: one non-empty segment without a slash. *)
Fixpoint no_slash (s : string) : bool :=
  match s with
  | EmptyString => true
  | String c rest => negb (Ascii.eqb c slash) && no_slash rest
  end.

Definition valid_param (s : string) : bool :=
  negb (String.eqb s "") && no_slash s.

End Sleeper.

(** ** The cache loader, [db/scripts/cache_sleeper_players.py] *)

Module Cache.
Import Py.

(** *** The SQLite store *)

(** SQLite storage classes (the loader binds no BLOB). A REAL is carried by
    its text like a Python float. *)
Inductive sqlval : Type :=
| SqlNull
| SqlInt (n : Z)
| SqlReal (repr : string)
| SqlText (s : string).

Global Instance sqlval_eq_dec : EqDecision sqlval.
Proof. solve_decision. Defined.

Inductive affinity : Type := TEXT | INTEGER.

(** [CREATE TABLE players]: column name, declared type, [NOT NULL]. The
    non-integer [PRIMARY KEY] on [player_id] makes it unique, not
    [NOT NULL]. *)
Definition players_schema : list (string * affinity * bool) :=
  [ ("player_id", TEXT, false);
    ("first_name", TEXT, false);
    ("last_name", TEXT, false);
    ("full_name", TEXT, false);
    ("search_full_name", TEXT, false);
    ("search_first_name", TEXT, false);
    ("search_last_name", TEXT, false);
    ("team", TEXT, false);
    ("position", TEXT, false);
    ("status", TEXT, false);
    ("sport", TEXT, false);
    ("number", INTEGER, false);
    ("age", INTEGER, false);
    ("depth_chart_position", INTEGER, false);
    ("depth_chart_order", INTEGER, false);
    ("years_exp", INTEGER, false);
    ("fantasy_positions_json", TEXT, false);
    ("data_json", TEXT, true);
    ("updated_at", INTEGER, true) ].

Definition columns : list string := map (fun d => d.1.1) players_schema.

(** A row holds one value per column, in schema order. *)
Abbreviation row := (list sqlval).

Fixpoint index_of (c : string) (cs : list string) : nat :=
  match cs with
  | [] => 0%nat
  | c' :: rest => if String.eqb c c' then 0%nat else S (index_of c rest)
  end.

Definition col (c : string) (r : row) : sqlval :=
  default SqlNull (r !! index_of c columns).

Record store : Type := {
  meta : option (gmap string string);
  players : option (list row)
}.

(** What a table holds; a table that was never created holds nothing. *)
Definition meta_rows (s : store) : gmap string string := default ∅ (meta s).
Definition players_rows (s : store) : list row := default [] (players s).

(** How Python values are bound to statement parameters. *)
Definition bind_param (v : json) : result sqlval :=
  match v with
  | JNull => Ok SqlNull
  | JBool b => Ok (SqlInt (if b then 1 else 0))
  | JInt n =>
      if (- 2 ^ 63 <=? n) && (n <? 2 ^ 63) then Ok (SqlInt n)
      else Raise OverflowError
  | JFloat r => Ok (if String.eqb r "nan" then SqlNull else SqlReal r)
  | JStr s => Ok (SqlText s)
  | JArr _ | JObj _ => Raise ProgrammingError
  end.

(** The value a column of the given affinity keeps for a bound value. *)
Definition apply_affinity `{Runtime} (a : affinity) (v : sqlval) : sqlval :=
  match a, v with
  | TEXT, SqlInt n => SqlText (pretty n)
  | TEXT, SqlReal r => SqlText (real_to_text r)
  | INTEGER, SqlText s =>
      match text_to_numeric s with
      | Some (inl n) => SqlInt n
      | Some (inr r) => SqlReal r
      | None => v
      end
  | INTEGER, SqlReal r =>
      match real_to_integer r with
      | Some n => SqlInt n
      | None => v
      end
  | _, _ => v
  end.

(** The row proposed by [INSERT INTO players (...) VALUES (?, ..., ?)]; the
    statement names all nineteen columns in schema order. *)
Definition new_row `{Runtime} (vals : list sqlval) : row :=
  zip_with (fun d v => apply_affinity d.1.2 v) players_schema vals.

Definition is_null (v : sqlval) : bool :=
  match v with SqlNull => true | _ => false end.

Definition violates_not_null (r : row) : bool :=
  existsb (fun d => d.2 && is_null (col d.1.1 r)) players_schema.

(** The primary-key value of a row. *)
Definition pk (r : row) : sqlval := col "player_id" r.

(** Two rows collide on the primary key when their [player_id]s are equal
    and not NULL. *)
Definition conflicts (old new : row) : bool :=
  negb (is_null (pk new)) && bool_decide (pk old = pk new).

(** The columns assigned by [ON CONFLICT(player_id) DO UPDATE SET]. *)
Definition set_columns : list string :=
  [ "first_name"; "last_name"; "full_name";
    "search_full_name"; "search_first_name"; "search_last_name";
    "team"; "position"; "status"; "sport";
    "number"; "age";
    "depth_chart_position"; "depth_chart_order"; "years_exp";
    "fantasy_positions_json";
    "data_json"; "updated_at" ].

Definition mem (c : string) (cs : list string) : bool :=
  existsb (String.eqb c) cs.

Definition do_update (old excluded : row) : row :=
  map (fun c => if mem c set_columns then col c excluded else col c old) columns.

Fixpoint upsert (r : row) (t : list row) : list row :=
  match t with
  | [] => [r]
  | old :: rest =>
      if conflicts old r then do_update old r :: rest
      else old :: upsert r rest
  end.

Definition insert_player `{Runtime} (vals : list sqlval) (s : store) : result store :=
  match players s with
  | None => Raise OperationalError
  | Some t =>
      if negb (length vals =? length players_schema)%nat then Raise ProgrammingError
      else
        let r := new_row vals in
        if violates_not_null r then Raise IntegrityError
        else Ok {| meta := meta s; players := Some (upsert r t) |}
  end.

(** [INSERT INTO meta(key,value) VALUES(k, v) ON CONFLICT(key) DO UPDATE SET
    value=excluded.value]. *)
Definition meta_upsert (k v : string) (s : store) : result store :=
  match meta s with
  | None => Raise OperationalError
  | Some m => Ok {| meta := Some (<[k := v]> m); players := players s |}
  end.

Definition create_meta (s : store) : result store :=
  Ok {| meta := Some (meta_rows s); players := players s |}.

Definition create_players (s : store) : result store :=
  Ok {| meta := meta s; players := Some (players_rows s) |}.

(** [CREATE INDEX IF NOT EXISTS ... ON players(...)] and [PRAGMA] leave the
    rows alone. *)
Definition create_index (s : store) : result store :=
  match players s with
  | None => Raise OperationalError
  | Some _ => Ok s
  end.

Definition pragma (s : store) : result store := Ok s.

(** *** The connection *)

(** A connection sees the committed store [disk], the working copy [txn] of
    an open transaction, and counts the statements it has run. *)
Record conn : Type := {
  disk : store;
  txn : option store;
  clock : nat
}.

Definition connect (s : store) : conn :=
  {| disk := s; txn := None; clock := 0 |}.

(** What a run depends on besides the store: what the fetch comes back with,
    the two clock readings, and which statements the storage engine fails
    (disk full, I/O error), by statement number. *)
Record world : Type := {
  upstream : result json;
  now : Z;
  ctime : string;
  fault : nat -> bool
}.

Definition M (A : Type) : Type := conn -> result A * conn.

Global Instance M_ret : MRet M := fun A a c => (Ok a, c).
Global Instance M_bind : MBind M := fun A B f m c =>
  match m c with
  | (Ok a, c') => f a c'
  | (Raise e, c') => (Raise e, c')
  end.

Definition lift {A} (r : result A) : M A := fun c => (r, c).

Definition view (c : conn) : store := default (disk c) (txn c).

Definition put_view (s : store) (c : conn) : conn :=
  match txn c with
  | Some _ => {| disk := disk c; txn := Some s; clock := clock c |}
  | None => {| disk := s; txn := None; clock := clock c |}
  end.

Definition tick (c : conn) : conn :=
  {| disk := disk c; txn := txn c; clock := S (clock c) |}.

Section Loader.
Context `{Runtime} (w : world).

(** [conn.execute(stmt)]: outside a transaction the statement commits on its
    own; a failing statement changes nothing. *)
Definition execute (stmt : store -> result store) : M unit := fun c =>
  if fault w (clock c) then (Raise OperationalError, tick c)
  else match stmt (view c) with
       | Ok s => (Ok (), put_view s (tick c))
       | Raise e => (Raise e, tick c)
       end.

(** Before an INSERT the module opens a transaction unless one is open. *)
Definition execute_dml (stmt : store -> result store) : M unit := fun c =>
  execute stmt
    match txn c with
    | Some _ => c
    | None => {| disk := disk c; txn := Some (disk c); clock := clock c |}
    end.

(** [conn.execute("BEGIN;")]. *)
Definition begin : M unit := fun c =>
  if fault w (clock c) then (Raise OperationalError, tick c)
  else match txn c with
       | Some _ => (Raise OperationalError, tick c)
       | None => (Ok (), {| disk := disk c; txn := Some (disk c); clock := S (clock c) |})
       end.

Definition commit : M unit := fun c =>
  match txn c with
  | None => (Ok (), c)
  | Some s =>
      if fault w (clock c) then (Raise OperationalError, tick c)
      else (Ok (), {| disk := s; txn := None; clock := S (clock c) |})
  end.

Definition rollback : M unit := fun c =>
  match txn c with
  | None => (Ok (), c)
  | Some s =>
      if fault w (clock c) then (Raise OperationalError, tick c)
      else (Ok (), {| disk := disk c; txn := None; clock := S (clock c) |})
  end.

(** [conn.close()]: an open transaction is abandoned. *)
Definition close (c : conn) : conn :=
  {| disk := disk c; txn := None; clock := clock c |}.

Definition ensure_db : M unit :=
  execute pragma ;;
  execute pragma ;;
  execute create_meta ;;
  execute create_players ;;
  execute create_index ;;
  execute create_index ;;
  execute create_index ;;
  execute create_index.

(** [is_cached]: one SELECT on [meta]; the answer is whether the row of
    [players_cached] is there with value ["1"]. *)
Definition is_cached : M bool := fun c =>
  if fault w (clock c) then (Raise OperationalError, tick c)
  else match meta (view c) with
       | None => (Raise OperationalError, tick c)
       | Some m => (Ok (bool_decide (m !! "players_cached" = Some "1")), tick c)
       end.

Definition mark_cached (count : nat) : M unit :=
  let formatted_time := ctime w in
  execute_dml (meta_upsert "players_cached" "1") ;;
  execute_dml (meta_upsert "players_cached_at" formatted_time) ;;
  execute_dml (meta_upsert "players_count" (pretty count)).

Definition fetch_players : M json := lift (upstream w).

(** [" ".join([x for x in [first, last] if x]) or p.get("full_name")]. *)
Definition full_name_of (first last fallback : json) : result json :=
  rbind (join_space (List.filter truthy [first; last]))
        (fun joined => Ok (py_or (JStr joined) fallback)).

(** The tuple appended to [rows] for one entry of [players_obj.items()]. *)
Definition prepare_row (now : Z) (entry : string * json) : result (list json) :=
  let key := entry.1 in
  match entry.2 with
  | JObj p =>
      let first := dict_get p "first_name" in
      let last := dict_get p "last_name" in
      rbind (full_name_of first last (dict_get p "full_name")) (fun full_name =>
      let fantasy_positions := dict_get p "fantasy_positions" in
      let fantasy_positions_json :=
        match fantasy_positions with
        | JNull => JNull
        | _ => JStr (json_dumps ", " ": " fantasy_positions)
        end in
      Ok [ JStr (py_str (py_or (dict_get p "player_id") (JStr key)));
           first;
           last;
           full_name;
           dict_get p "search_full_name";
           dict_get p "search_first_name";
           dict_get p "search_last_name";
           dict_get p "team";
           dict_get p "position";
           dict_get p "status";
           dict_get p "sport";
           dict_get p "number";
           dict_get p "age";
           dict_get p "depth_chart_position";
           dict_get p "depth_chart_order";
           dict_get p "years_exp";
           fantasy_positions_json;
           JStr (json_dumps "," ":" (JObj p));
           JInt now ])
  | _ => Raise AttributeError
  end.

(** [players_obj.items()]. *)
Definition items (players_obj : json) : result (list (string * json)) :=
  match players_obj with
  | JObj l => Ok l
  | _ => Raise AttributeError
  end.

Definition prepare_rows (now : Z) (players_obj : json) : result (list (list json)) :=
  rbind (items players_obj) (rmap (prepare_row now)).

(** [conn.executemany(INSERT ..., rows)]: each tuple is bound, then run. *)
Fixpoint executemany (rows : list (list json)) : M unit :=
  match rows with
  | [] => mret ()
  | r :: rest =>
      vals ← lift (rmap bind_param r);
      execute_dml (insert_player vals) ;;
      executemany rest
  end.

(** The [try] block of [main]. *)
Definition main_body : M nat :=
  ensure_db ;;
  players_obj ← fetch_players;
  let now := now w in
  rows ← lift (prepare_rows now players_obj);
  begin ;;
  executemany rows ;;
  mark_cached (length rows) ;;
  commit ;;
  mret (length rows).

(** [main]: on any exception roll back and re-raise; close in every case.
    The result is the number of players reported as cached. *)
Definition main : M nat := fun c =>
  match main_body c with
  | (Ok n, c1) => (Ok n, close c1)
  | (Raise e, c1) =>
      match rollback c1 with
      | (Ok _, c2) => (Raise e, close c2)
      | (Raise e', c2) => (Raise e', close c2)
      end
  end.

(** One run of the script against the store file. *)
Definition run_loader (s : store) : result nat * store :=
  let '(r, c) := main (connect s) in (r, disk c).

End Loader.

End Cache.

(** ** A concrete runtime for closed examples

    Enough of the library functions to evaluate the model on small inputs:
    a serialiser for JSON whose strings need no escaping, a decoder for the
    bare literals, and SQLite conversions on digit strings only. *)

Module Sample.
Import Py.

Definition quoted (s : string) : string :=
  let q := String (ascii_of_nat 34) EmptyString in q ++ s ++ q.

Fixpoint dumps (item_sep key_sep : string) (v : json) : string :=
  match v with
  | JNull => "null"
  | JBool true => "true"
  | JBool false => "false"
  | JInt n => pretty n
  | JFloat r => r
  | JStr s => quoted s
  | JArr l =>
      "[" ++ (fix go (l : list json) : string :=
                match l with
                | [] => ""
                | [x] => dumps item_sep key_sep x
                | x :: rest => dumps item_sep key_sep x ++ item_sep ++ go rest
                end) l ++ "]"
  | JObj l =>
      "{" ++ (fix go (l : list (string * json)) : string :=
                match l with
                | [] => ""
                | [(k, x)] => quoted k ++ key_sep ++ dumps item_sep key_sep x
                | (k, x) :: rest =>
                    quoted k ++ key_sep ++ dumps item_sep key_sep x
                    ++ item_sep ++ go rest
                end) l ++ "}"
  end.

Definition loads (s : string) : option json :=
  if String.eqb s "null" then Some JNull
  else if String.eqb s "true" then Some (JBool true)
  else if String.eqb s "false" then Some (JBool false)
  else if String.eqb s "[]" then Some (JArr [])
  else if String.eqb s "{}" then Some (JObj [])
  else None.

Fixpoint digits (s : string) (acc : Z) : option Z :=
  match s with
  | EmptyString => Some acc
  | String c rest =>
      let d := Z.of_nat (nat_of_ascii c) - 48 in
      if (0 <=? d) && (d <=? 9) then digits rest (10 * acc + d) else None
  end.

Definition numeric (s : string) : option (Z + string) :=
  match s with
  | EmptyString => None
  | _ => option_map inl (digits s 0)
  end.

Definition runtime : Runtime := {|
  json_dumps := dumps;
  json_loads := loads;
  container_str := dumps ", " ": ";
  real_to_text := fun r => r;
  text_to_numeric := numeric;
  real_to_integer := fun _ => None
|}.

End Sample.

(** Stores, feeds and worlds for the closed examples. *)
Module SampleData.
Import Py Cache.

Definition new_file : store := {| meta := None; players := None |}.

Definition no_fault : nat -> bool := fun _ => false.

Definition world_of (feed : json) (t : Z) (faults : nat -> bool) : world :=
  {| upstream := Ok feed; now := t; ctime := "Tue Nov  3 09:31:00 2026"; fault := faults |}.

(** The spec's two example records, and one with a first name only. *)
Definition tom_brady : list (string * json) :=
  [("player_id", JStr "1"); ("first_name", JStr "Tom"); ("last_name", JStr "Brady")].
Definition only_full_name : list (string * json) := [("full_name", JStr "X Y")].
Definition only_first_name : list (string * json) :=
  [("first_name", JStr "Tom"); ("full_name", JStr "X Y")].

(** A feed that held player 999 once, and the feed that replaced it. *)
Definition old_feed : list (string * json) :=
  [("999", JObj [("first_name", JStr "Joe"); ("last_name", JStr "Retired")])].
Definition new_feed : list (string * json) := [("1", JObj tom_brady)].

(** Two entries that derive the same key, and an entry with no field. *)
Definition twin_feed : list (string * json) :=
  [("a", JObj [("player_id", JStr "x"); ("team", JStr "NE")]);
   ("b", JObj [("player_id", JStr "x"); ("team", JStr "TB")])].
Definition bare_feed : list (string * json) := [("7", JObj [])].

(** The store after the old feed was loaded at time 100, then the new feed at
    time 200, then the new feed again at time 300. *)
Definition after_old : store :=
  (run_loader (H := Sample.runtime) (world_of (JObj old_feed) 100 no_fault) new_file).2.
Definition after_new : store :=
  (run_loader (H := Sample.runtime) (world_of (JObj new_feed) 200 no_fault) after_old).2.
Definition after_new_again : store :=
  (run_loader (H := Sample.runtime) (world_of (JObj new_feed) 300 no_fault) after_new).2.

End SampleData.

(** * Vocabulary of the statements *)

Section Vocabulary.
Import Py Cache.
Context `{Runtime}.

(** The store once both tables exist. *)
Definition ensured (s : store) : store :=
  {| meta := Some (meta_rows s); players := Some (players_rows s) |}.

(** Two stores hold the same rows. *)
Definition same_rows (s s' : store) : Prop :=
  meta_rows s' = meta_rows s /\ players_rows s' = players_rows s.

(** No statement numbered from [a] up to [b] fails in the storage engine. *)
Definition quiet (w : world) (a b : nat) : Prop :=
  forall j, (a <= j < b)%nat -> fault w j = false.

(** [stores tuple v]: the INSERT of the bound [tuple] proposes the row [v]
    and passes the schema's checks. *)
Definition stores (tuple : list json) (v : row) : Prop :=
  exists vals,
    rmap bind_param tuple = Ok vals /\
    length vals = length players_schema /\
    v = new_row vals /\
    violates_not_null v = false.

(** The players table after upserting [stored] in order. *)
Definition upsert_all (t : list row) (stored : list row) : list row :=
  foldl (fun t v => upsert v t) t stored.

(** The meta table after [mark_cached]. *)
Definition cached_meta (w : world) (n : nat) (m : gmap string string) : gmap string string :=
  <["players_count" := pretty n]>
    (<["players_cached_at" := ctime w]> (<["players_cached" := "1"]> m)).

(** The key under which an entry of the fetched mapping is stored. *)
Definition entry_key (entry : string * json) : string :=
  match entry.2 with
  | JObj p => py_str (py_or (dict_get p "player_id") (JStr entry.1))
  | _ => entry.1
  end.

(** The value bound for a column that copies one upstream field. *)
Definition field_value (entry : string * json) (c : string) : json :=
  match entry.2 with
  | JObj p => dict_get p c
  | _ => JNull
  end.

(** No two rows of the table collide on the primary key, as [PRIMARY KEY]
    has it. *)
Fixpoint pk_unique (t : list row) : bool :=
  match t with
  | [] => true
  | r :: rest => forallb (fun r' => negb (conflicts r' r)) rest && pk_unique rest
  end.

(** A row as the INSERT proposes it: nineteen values, a key that is not
    NULL. *)
Definition good (v : row) : Prop :=
  length v = 19%nat /\ is_null (pk v) = false.

(** The row that replaces [r] when [v] is upserted. *)
Definition replaced (v r : row) : row :=
  if bool_decide (pk r = pk v) then v else r.

(** The last row of [vs] stored under the key [k]. *)
Fixpoint last_with (k : sqlval) (vs : list row) : option row :=
  match vs with
  | [] => None
  | v :: rest =>
      match last_with k rest with
      | Some x => Some x
      | None => if bool_decide (pk v = k) then Some v else None
      end
  end.

(** [row_of now entry v]: the entry is prepared and its tuple stored as [v]. *)
Definition row_of (now : Z) (entry : string * json) (v : row) : Prop :=
  exists tuple, prepare_row now entry = Ok tuple /\ stores tuple v.

(** The stores the loader can leave behind, starting from a new file. *)
Inductive reachable : store -> Prop :=
| reachable_new : reachable {| meta := None; players := None |}
| reachable_run w s r s' :
    reachable s -> run_loader w s = (r, s') -> reachable s'.

(** The entry of the row tuple that becomes [full_name]. *)
Definition row_full_name (now : Z) (entry : string * json) : result json :=
  rbind (prepare_row now entry) (fun tuple => Ok (default JNull (tuple !! 3%nat))).

(** The spec's words for [full_name]: first and last name joined by a space
    when both are there, the upstream [full_name] field otherwise. *)
Definition spec_full_name (p : list (string * json)) : result json :=
  match dict_get p "first_name", dict_get p "last_name" with
  | JStr f, JStr l => Ok (JStr (f ++ " " ++ l))
  | _, _ => Ok (dict_get p "full_name")
  end.

(** [updated_at] set to [now], every other column as it was. *)
Definition touch (now : Z) (r : row) : row :=
  <[index_of "updated_at" columns := SqlInt now]> r.

(** The rows a run over [entries] writes: those stored under a derived key. *)
Definition written (entries : list (string * json)) (r : row) : Prop :=
  pk r ∈ map (fun e => SqlText (entry_key e)) entries.

(** The spec's words for idempotence: the second run leaves as many rows, each
    equal to what the first run left but for [updated_at], which is the second
    run's fetch time. *)
Definition spec_idempotent (now2 : Z) (rows1 rows2 : list row) : Prop :=
  length rows2 = length rows1 /\
  Forall2 (fun r1 r2 =>
             (forall c, c <> "updated_at" -> col c r2 = col c r1) /\
             col "updated_at" r2 = SqlInt now2) rows1 rows2.

(** A row with a key and a payload. *)
Definition never_null (r : row) : Prop :=
  pk r <> SqlNull /\ col "data_json" r <> SqlNull.

(** The columns filled from upstream fields other than the key and the
    payload, and the upstream fields each one is computed from. *)
Definition optional_columns : list string :=
  [ "first_name"; "last_name"; "full_name"; "search_full_name"; "search_first_name";
    "search_last_name"; "team"; "position"; "status"; "sport"; "number"; "age";
    "depth_chart_position"; "depth_chart_order"; "years_exp"; "fantasy_positions_json" ].

Definition source_fields (c : string) : list string :=
  if String.eqb c "full_name" then ["first_name"; "last_name"; "full_name"]
  else if String.eqb c "fantasy_positions_json" then ["fantasy_positions"]
  else [c].

End Vocabulary.

(** * Further vocabulary *)

Section FurtherVocabulary.
Import Py Sleeper Cache.
Context `{Runtime}.

(** The segments of a path put back together. *)
Fixpoint join_slash (segs : list string) : string :=
  match segs with
  | [] => ""
  | [x] => x
  | x :: rest => x ++ "/" ++ join_slash rest
  end.

(** Whether a path ends in a line feed. The pattern Starlette compiles from
    a route template ends in [$], which also matches just before a final
    line feed; [match_template] matches the whole path only, so the two agree
    on the paths that do not end in one. *)
Fixpoint ends_in_newline (s : string) : bool :=
  match s with
  | EmptyString => false
  | String c EmptyString => Ascii.eqb c "010"%char
  | String _ rest => ends_in_newline rest
  end.

(** One outbound GET as the handler issues it. *)
Record request : Type := {
  req_url : string;
  req_params : option (list (string * string));
  req_timeout : Z
}.

(** The requests a handler issues against [net], in order. *)
Fixpoint requests {A} (p : prog A) (net : list outcome) : list request :=
  match p with
  | Ret _ | Throw _ => []
  | HttpGet url params timeout k =>
      {| req_url := url; req_params := params; req_timeout := timeout |}
      :: match net with
         | [] => []
         | o :: net' => requests (k o) net'
         end
  end.

(** The columns that copy the upstream field of the same name. *)
Definition copied_columns : list string :=
  [ "first_name"; "last_name"; "search_full_name"; "search_first_name";
    "search_last_name"; "team"; "position"; "status"; "sport"; "number"; "age";
    "depth_chart_position"; "depth_chart_order"; "years_exp" ].

(** The declared type of a column of [players]. *)
Definition column_affinity (c : string) : affinity :=
  match List.find (fun d => String.eqb d.1.1 c) players_schema with
  | Some d => d.1.2
  | None => TEXT
  end.

Definition is_str (v : json) : bool :=
  match v with JStr _ => true | _ => false end.

(** A name field the join accepts: a string, or a value that counts as
    false and is left out. *)
Definition name_ok (v : json) : bool := is_str v || negb (truthy v).

(** A 64-bit signed integer. *)
Definition int64 (n : Z) : bool := (- 2 ^ 63 <=? n) && (n <? 2 ^ 63).

(** A scalar the statement can bind. *)
Definition scalar (v : json) : bool :=
  match v with
  | JInt n => int64 n
  | JArr _ | JObj _ => false
  | _ => true
  end.

(** A string of ASCII characters only. *)
Fixpoint ascii_only (s : string) : bool :=
  match s with
  | EmptyString => true
  | String c rest => (nat_of_ascii c <? 128)%nat && ascii_only rest
  end.

(** A value that is not a string, or is an ASCII one. SQLite stores text as
    UTF-8, and binding a [str] that has no UTF-8 encoding (one with a lone
    surrogate, which [json.loads] can produce) raises [UnicodeEncodeError];
    [bind_param] leaves that case out, so the statements about what a load
    accepts are made for ASCII strings, which always encode. *)
Definition plain (v : json) : bool :=
  match v with JStr x => ascii_only x | _ => true end.

(** An entry the loader can store: an object with an ASCII outer key and
    [player_id], whose two names can be joined and whose copied fields, with
    [full_name], are scalars with ASCII text. *)
Definition entry_ok (entry : string * json) : bool :=
  match entry.2 with
  | JObj p =>
      ascii_only entry.1 && plain (dict_get p "player_id") &&
      (name_ok (dict_get p "first_name") && name_ok (dict_get p "last_name")) &&
      (scalar (dict_get p "full_name") && plain (dict_get p "full_name")) &&
      forallb (fun c => scalar (dict_get p c) && plain (dict_get p c)) copied_columns
  | _ => false
  end.

(** A row as the loader writes it: nineteen values, a text key, a text
    payload and an integer time. *)
Definition well_formed_row (r : row) : Prop :=
  length r = 19%nat /\
  (exists k, pk r = SqlText k) /\
  (exists d, col "data_json" r = SqlText d) /\
  (exists t, col "updated_at" r = SqlInt t /\ int64 t = true).

End FurtherVocabulary.


(** A record with a jersey number sent as text and a list of positions, and
    the row the loader stores for it at time 100. *)
Module FurtherSamples.
Import Py Cache.

Definition numbered : list (string * json) :=
  [("first_name", JStr "Tom"); ("last_name", JStr "Brady");
   ("number", JStr "12"); ("fantasy_positions", JArr [JStr "QB"])].

Definition numbered_row : row :=
  [ SqlText "12"; SqlText "Tom"; SqlText "Brady"; SqlText "Tom Brady";
    SqlNull; SqlNull; SqlNull; SqlNull; SqlNull; SqlNull; SqlNull;
    SqlInt 12; SqlNull; SqlNull; SqlNull; SqlNull;
    SqlText (Sample.dumps ", " ": " (JArr [JStr "QB"]));
    SqlText (Sample.dumps "," ":" (JObj numbered));
    SqlInt 100 ].

(** Nineteen bound values whose key is that of player 999. *)
Definition retired_values : list sqlval :=
  [ SqlText "999"; SqlText "Joe"; SqlText "Retired"; SqlText "Joe Retired";
    SqlNull; SqlNull; SqlNull; SqlText "FA"; SqlNull; SqlNull; SqlNull;
    SqlNull; SqlInt 44; SqlNull; SqlNull; SqlNull; SqlNull;
    SqlText "{}"; SqlInt 250 ].

End FurtherSamples.
(** * Properties of the proxy *)

Section ProxyFacts.
Import Py Sleeper.
Context `{Runtime}.

Lemma split_slash_nonempty s : split_slash s <> [].
Proof.
  destruct s as [|c s]; simpl; [done|].
  destruct (Ascii.eqb c slash); [done|]. by destruct (split_slash s).
Qed.

Lemma split_slash_no_slash u : no_slash u = true -> split_slash u = [u].
Proof.
  induction u as [|c u IH]; simpl; [done|].
  intros [Hc Hu]%andb_true_iff. apply negb_true_iff in Hc. rewrite Hc, (IH Hu). done.
Qed.

Lemma split_slash_app u rest :
  no_slash u = true ->
  split_slash (u ++ String slash rest) = u :: split_slash rest.
Proof.
  induction u as [|c u IH]; simpl; [done|].
  intros [Hc Hu]%andb_true_iff. apply negb_true_iff in Hc. rewrite Hc, (IH Hu). done.
Qed.

Lemma valid_param_no_slash u : valid_param u = true -> no_slash u = true.
Proof. by intros [_ ?]%andb_true_iff. Qed.

Lemma valid_param_nonempty u : valid_param u = true -> String.eqb u "" = false.
Proof. intros [?%negb_true_iff _]%andb_true_iff. done. Qed.

Lemma match_segments_length pat segs ps :
  match_segments pat segs = Some ps -> length pat = length segs.
Proof.
  revert segs ps. induction pat as [|[s|n] pat IH]; intros [|x segs] ps; simpl; try done.
  - destruct (String.eqb s x); [|done]. intros ?%IH. by f_equal.
  - destruct (String.eqb x ""); [done|].
    destruct (match_segments pat segs) eqn:E; [|done]. intros _. f_equal. by eapply IH.
Qed.

Lemma match_segments_length_ne pat segs :
  length pat <> length segs -> match_segments pat segs = None.
Proof.
  intros Hne. destruct (match_segments pat segs) eqn:E; [|done].
  by apply match_segments_length in E.
Qed.

Lemma split_slash_single_empty s : split_slash s = [""] -> s = "".
Proof.
  destruct s as [|c s]; simpl; [done|].
  destruct (Ascii.eqb c slash).
  - intros [=E]. by apply split_slash_nonempty in E.
  - destruct (split_slash s); intros [=].
Qed.

(** Only the request path ["/"] reaches the first route. *)
Lemma match_root path ps : match_template "/" path = Some ps -> path = "/".
Proof.
  unfold match_template, split_path.
  destruct path as [|c rest]; [done|].
  destruct (Ascii.eqb c slash) eqn:Ec; [|done].
  apply Ascii.eqb_eq in Ec. subst c.
  change (compile_template "/") with [Lit ""]. simpl.
  destruct (split_slash rest) as [|x [|y segs]] eqn:E; simpl; try done.
  - destruct x; [|done].
    intros _. by rewrite (split_slash_single_empty _ E).
  - by destruct x.
Qed.

(** Every route but the first hands the request to [sleeper_get]. *)
Lemma dispatch_proxied path h :
  dispatch path = Some h -> path <> "/" ->
  exists upstream_path, h = sleeper_get upstream_path None.
Proof.
  unfold dispatch, routes. simpl.
  destruct (match_template "/" path) eqn:E0.
  { apply match_root in E0. done. }
  repeat match goal with
  | |- context [match match_template ?t path with _ => _ end] =>
      destruct (match_template t path)
  end; intros [= <-] _; eauto.
  all: try (unfold get_user, get_user_leagues, get_league, get_league_rosters; eauto).
Qed.

Lemma run_sleeper_get path params o net :
  run (sleeper_get path params) (o :: net) =
  ([SLEEPER_BASE_URL ++ path],
   Some match o with
        | Unreachable e => Raise (HTTPException 502 ("Could not reach Sleeper: " ++ e))
        | Response status_code text =>
            if 400 <=? status_code then Raise (HTTPException status_code text)
            else match json_loads text with
                 | Some v => Ok v
                 | None => Raise JSONDecodeError
                 end
        end).
Proof.
  unfold sleeper_get. cbn [run].
  destruct o as [st text|e]; [|done].
  destruct (400 <=? st); [done|]. by destruct (json_loads text).
Qed.

End ProxyFacts.

Section ProxyClaims.
Import Py Sleeper.
Context `{Runtime}.

Lemma match_template_segs t path segs :
  split_path path = Some segs ->
  match_template t path = match_segments (compile_template t) segs.
Proof. unfold match_template. by intros ->. Qed.

Lemma compile_root : compile_template "/" = [Lit ""].
Proof. reflexivity. Qed.
Lemma compile_user :
  compile_template "/sleeper/user/{user_id}" = [Lit "sleeper"; Lit "user"; Param "user_id"].
Proof. reflexivity. Qed.
Lemma compile_user_leagues :
  compile_template "/sleeper/{user_id}/leagues/{sport}/{season}"
  = [Lit "sleeper"; Param "user_id"; Lit "leagues"; Param "sport"; Param "season"].
Proof. reflexivity. Qed.
Lemma compile_league :
  compile_template "/sleeper/league/{league_id}" = [Lit "sleeper"; Lit "league"; Param "league_id"].
Proof. reflexivity. Qed.
Lemma compile_rosters :
  compile_template "/sleeper/league/{league_id}/rosters"
  = [Lit "sleeper"; Lit "league"; Param "league_id"; Lit "rosters"].
Proof. reflexivity. Qed.

Lemma split_user u :
  no_slash u = true -> split_path ("/sleeper/user/" ++ u) = Some ["sleeper"; "user"; u].
Proof.
  intros Hu. change (split_path ("/sleeper/user/" ++ u))
    with (Some (split_slash ("sleeper" ++ String slash ("user" ++ String slash u)))).
  by rewrite !split_slash_app, split_slash_no_slash.
Qed.

Lemma split_user_leagues u sp se :
  no_slash u = true -> no_slash sp = true -> no_slash se = true ->
  split_path ("/sleeper/" ++ u ++ "/leagues/" ++ sp ++ "/" ++ se)
  = Some ["sleeper"; u; "leagues"; sp; se].
Proof.
  intros Hu Hsp Hse.
  change (split_path ("/sleeper/" ++ u ++ "/leagues/" ++ sp ++ "/" ++ se))
    with (Some (split_slash ("sleeper" ++ String slash
            (u ++ String slash ("leagues" ++ String slash (sp ++ String slash se)))))).
  by rewrite !split_slash_app, split_slash_no_slash.
Qed.

Lemma split_league l :
  no_slash l = true -> split_path ("/sleeper/league/" ++ l) = Some ["sleeper"; "league"; l].
Proof.
  intros Hl. change (split_path ("/sleeper/league/" ++ l))
    with (Some (split_slash ("sleeper" ++ String slash ("league" ++ String slash l)))).
  by rewrite !split_slash_app, split_slash_no_slash.
Qed.

Lemma split_rosters l :
  no_slash l = true ->
  split_path ("/sleeper/league/" ++ l ++ "/rosters") = Some ["sleeper"; "league"; l; "rosters"].
Proof.
  intros Hl. change (split_path ("/sleeper/league/" ++ l ++ "/rosters"))
    with (Some (split_slash ("sleeper" ++ String slash
            ("league" ++ String slash (l ++ String slash "rosters"))))).
  by rewrite !split_slash_app, split_slash_no_slash.
Qed.

Ltac route_step Hs :=
  unfold dispatch, routes; cbn [first_match];
  rewrite !(match_template_segs _ _ _ Hs),
    compile_root, compile_user, compile_user_leagues, compile_league, compile_rosters.

(** C4. For valid path parameters (non-empty, slash-free), each of the four
    proxied routes calls [sleeper_get] with the upstream path obtained by
    literal substitution: [/sleeper/user/{user_id}] gives [/user/{user_id}],
    [/sleeper/{user_id}/leagues/{sport}/{season}] gives
    [/user/{user_id}/leagues/{sport}/{season}], [/sleeper/league/{league_id}]
    gives [/league/{league_id}] and [/sleeper/league/{league_id}/rosters]
    gives [/league/{league_id}/rosters]. *)
Theorem proxy_upstream_paths (user_id sport season league_id : string) :
  valid_param user_id = true -> valid_param sport = true ->
  valid_param season = true -> valid_param league_id = true ->
  dispatch ("/sleeper/user/" ++ user_id)
    = Some (sleeper_get ("/user/" ++ user_id) None) /\
  dispatch ("/sleeper/" ++ user_id ++ "/leagues/" ++ sport ++ "/" ++ season)
    = Some (sleeper_get ("/user/" ++ user_id ++ "/leagues/" ++ sport ++ "/" ++ season) None) /\
  dispatch ("/sleeper/league/" ++ league_id)
    = Some (sleeper_get ("/league/" ++ league_id) None) /\
  dispatch ("/sleeper/league/" ++ league_id ++ "/rosters")
    = Some (sleeper_get ("/league/" ++ league_id ++ "/rosters") None).
Proof.
  intros Hu Hsp Hse Hl.
  pose proof (valid_param_no_slash _ Hu) as Hu'.
  pose proof (valid_param_no_slash _ Hsp) as Hsp'.
  pose proof (valid_param_no_slash _ Hse) as Hse'.
  pose proof (valid_param_no_slash _ Hl) as Hl'.
  apply valid_param_nonempty in Hu, Hsp, Hse, Hl.
  repeat split.
  - pose proof (split_user _ Hu') as Hs. route_step Hs.
    cbn. rewrite Hu. done.
  - pose proof (split_user_leagues _ _ _ Hu' Hsp' Hse') as Hs. route_step Hs.
    rewrite (match_segments_length_ne [Lit ""]) by done.
    rewrite (match_segments_length_ne [Lit "sleeper"; Lit "user"; Param "user_id"]) by done.
    cbn. rewrite Hu, Hsp, Hse. done.
  - pose proof (split_league _ Hl') as Hs. route_step Hs.
    rewrite (match_segments_length_ne
               [Lit "sleeper"; Param "user_id"; Lit "leagues"; _; _]) by done.
    cbn. rewrite Hl. done.
  - pose proof (split_rosters _ Hl') as Hs. route_step Hs.
    rewrite (match_segments_length_ne
               [Lit "sleeper"; Param "user_id"; Lit "leagues"; _; _]) by done.
    rewrite (match_segments_length_ne [Lit "sleeper"; Lit "league"; Param "league_id"]) by done.
    cbn. rewrite Hl. done.
Qed.

(** C5. Whatever proxied route handles the request, an upstream response with
    status >= 400 is re-raised as an [HTTPException] with the upstream's status
    and its body text as detail, after exactly one outbound request and for
    4xx and 5xx alike; with status < 400 the handler returns the decoded
    body. *)
Theorem upstream_status_relayed (path : string) (h : prog json)
    (status_code : Z) (text : string) (later : list outcome) :
  dispatch path = Some h -> path <> "/" ->
  exists url,
    (400 <= status_code ->
       run h (Response status_code text :: later)
         = ([url], Some (Raise (HTTPException status_code text)))
       /\ respond (Raise (HTTPException status_code text))
         = ReplyError status_code text) /\
    (status_code < 400 ->
       forall v, json_loads text = Some v ->
       run h (Response status_code text :: later) = ([url], Some (Ok v))
       /\ respond (Ok v) = ReplyJson 200 v).
Proof.
  intros Hd Hp. destruct (dispatch_proxied _ _ Hd Hp) as [up ->].
  exists (SLEEPER_BASE_URL ++ up). rewrite run_sleeper_get. split.
  - intros Hge. apply Z.leb_le in Hge. by rewrite Hge.
  - intros Hlt v Hv. apply Z.leb_gt in Hlt. by rewrite Hlt, Hv.
Qed.

(** C6. Whatever proxied route handles the request, a transport failure of
    the outbound request is raised as an [HTTPException] with status 502 whose
    detail embeds the failure's text. *)
Theorem transport_failure_is_502 (path : string) (h : prog json)
    (msg : string) (later : list outcome) :
  dispatch path = Some h -> path <> "/" ->
  exists url,
    run h (Unreachable msg :: later)
      = ([url], Some (Raise (HTTPException 502 ("Could not reach Sleeper: " ++ msg))))
    /\ respond (Raise (HTTPException 502 ("Could not reach Sleeper: " ++ msg)))
      = ReplyError 502 ("Could not reach Sleeper: " ++ msg).
Proof.
  intros Hd Hp. destruct (dispatch_proxied _ _ Hd Hp) as [up ->].
  exists (SLEEPER_BASE_URL ++ up). by rewrite run_sleeper_get.
Qed.

(** C10. Besides the four proxied routes the table has a fifth, [/]: it is
    handled by [root], which returns the object [{"message": "Hello World"}]
    without any outbound request, whatever the upstream would answer. *)
Theorem root_says_hello (net : list outcome) :
  length routes = 5%nat /\
  dispatch "/" = Some root /\
  run root net = ([], Some (Ok (JObj [("message", JStr "Hello World")]))) /\
  respond (Ok (JObj [("message", JStr "Hello World")]))
    = ReplyJson 200 (JObj [("message", JStr "Hello World")]).
Proof. done. Qed.

(** ** Further properties of the proxy *)

Lemma split_slash_join s : join_slash (split_slash s) = s.
Proof.
  induction s as [|c s IH]; [done|]. cbn [split_slash].
  pose proof (split_slash_nonempty s) as Hne.
  destruct (Ascii.eqb c slash) eqn:Ec.
  - apply Ascii.eqb_eq in Ec. subst c.
    destruct (split_slash s) as [|x xs]; [done|]. change (join_slash ("" :: x :: xs))
      with (String slash (join_slash (x :: xs))). by rewrite IH.
  - destruct (split_slash s) as [|x xs]; [done|]. rewrite <- IH.
    destruct xs; reflexivity.
Qed.

Lemma split_slash_segments s : Forall (fun x => no_slash x = true) (split_slash s).
Proof.
  induction s as [|c s IH]; cbn [split_slash]; [by repeat constructor|].
  destruct (Ascii.eqb c slash) eqn:Ec; [by constructor|].
  destruct (split_slash s) as [|x xs]; [repeat constructor; cbn; by rewrite Ec|].
  inversion IH; subst. constructor; [|done]. cbn. by rewrite Ec.
Qed.

Lemma split_path_join path segs :
  split_path path = Some segs ->
  path = String slash (join_slash segs) /\ Forall (fun x => no_slash x = true) segs.
Proof.
  destruct path as [|c rest]; [done|]. cbn.
  destruct (Ascii.eqb c slash) eqn:Ec; [|done]. apply Ascii.eqb_eq in Ec. subst c.
  intros [= <-]. split; [by rewrite split_slash_join|apply split_slash_segments].
Qed.

Lemma match_lit_inv s pat segs ps :
  match_segments (Lit s :: pat) segs = Some ps ->
  exists segs', segs = s :: segs' /\ match_segments pat segs' = Some ps.
Proof.
  destruct segs as [|x segs']; [done|]. cbn [match_segments].
  destruct (String.eqb s x) eqn:E; [|done]. apply String.eqb_eq in E. subst x. eauto.
Qed.

Lemma match_param_inv name pat segs ps :
  match_segments (Param name :: pat) segs = Some ps ->
  exists x segs' ps',
    segs = x :: segs' /\ String.eqb x "" = false /\
    match_segments pat segs' = Some ps' /\ ps = (name, x) :: ps'.
Proof.
  destruct segs as [|x segs']; [done|]. cbn [match_segments].
  destruct (String.eqb x "") eqn:E; [done|].
  destruct (match_segments pat segs') as [ps'|] eqn:Em; [|done]. cbn [option_map].
  intros [= <-]. by exists x, segs', ps'.
Qed.

Lemma match_end_inv segs ps : match_segments [] segs = Some ps -> segs = [] /\ ps = [].
Proof. destruct segs; [|done]. by intros [= <-]. Qed.

Lemma valid_param_intro u : String.eqb u "" = false -> no_slash u = true -> valid_param u = true.
Proof. unfold valid_param. by intros -> ->. Qed.

Ltac invert_match :=
  repeat match goal with
  | Hm : match_segments (Lit _ :: _) _ = Some _ |- _ =>
      apply match_lit_inv in Hm as (? & -> & Hm)
  | Hm : match_segments (Param _ :: _) _ = Some _ |- _ =>
      apply match_param_inv in Hm as (? & ? & ? & -> & ? & Hm & ->)
  | Hm : match_segments [] _ = Some _ |- _ =>
      apply match_end_inv in Hm as [-> ->]
  | Hf : Forall _ (_ :: _) |- _ => apply Forall_cons in Hf as [? Hf]
  end.

(** X1. The five handlers of the file are reached by five path shapes only:
    a request path that does not end in a line feed and reaches one of them
    is [/], or one of the four templates filled with non-empty, slash-free
    parameters, and the handler is the one of that template. *)
Theorem dispatch_only_known_shapes (path : string) (h : prog json) :
  ends_in_newline path = false ->
  dispatch path = Some h ->
  (path = "/" /\ h = root) \/
  (exists u, valid_param u = true /\
     path = "/sleeper/user/" ++ u /\ h = get_user u) \/
  (exists u sp se,
     valid_param u = true /\ valid_param sp = true /\ valid_param se = true /\
     path = "/sleeper/" ++ u ++ "/leagues/" ++ sp ++ "/" ++ se /\
     h = get_user_leagues u se sp) \/
  (exists l, valid_param l = true /\
     path = "/sleeper/league/" ++ l /\ h = get_league l) \/
  (exists l, valid_param l = true /\
     path = "/sleeper/league/" ++ l ++ "/rosters" /\ h = get_league_rosters l).
Proof.
  intros _ Hd. unfold dispatch, routes in Hd. cbn [first_match] in Hd.
  destruct (match_template "/" path) eqn:E0.
  { injection Hd as <-. left. split; [by eapply match_root|done]. }
  unfold match_template in *.
  destruct (split_path path) as [segs|] eqn:Es; [|done].
  apply split_path_join in Es as [-> Hsl].
  rewrite compile_user, compile_user_leagues, compile_league, compile_rosters in Hd.
  right.
  destruct (match_segments [Lit "sleeper"; Lit "user"; Param "user_id"] segs) eqn:E1.
  { injection Hd as <-. invert_match. left. eexists.
    split; [by apply valid_param_intro|]. split; reflexivity. }
  destruct (match_segments [Lit "sleeper"; Param "user_id"; Lit "leagues";
                            Param "sport"; Param "season"] segs) eqn:E2.
  { injection Hd as <-.
    apply match_lit_inv in E2 as (? & -> & E2).
    apply match_param_inv in E2 as (u & ? & ? & -> & Hu & E2 & ->).
    apply match_lit_inv in E2 as (? & -> & E2).
    apply match_param_inv in E2 as (sp & ? & ? & -> & Hsp & E2 & ->).
    apply match_param_inv in E2 as (se & ? & ? & -> & Hse & E2 & ->).
    invert_match. right. left. exists u, sp, se.
    repeat (split; [by apply valid_param_intro|]). split; reflexivity. }
  destruct (match_segments [Lit "sleeper"; Lit "league"; Param "league_id"] segs) eqn:E3.
  { injection Hd as <-. invert_match. right. right. left. eexists.
    split; [by apply valid_param_intro|]. split; reflexivity. }
  destruct (match_segments [Lit "sleeper"; Lit "league"; Param "league_id"; Lit "rosters"]
              segs) eqn:E4; [|done].
  injection Hd as <-. invert_match. right. right. right. eexists.
  split; [by apply valid_param_intro|]. split; reflexivity.
Qed.

(** Every route hands the request to [root] or to [sleeper_get]. *)
Lemma dispatch_handler path h :
  dispatch path = Some h -> h = root \/ exists upstream_path, h = sleeper_get upstream_path None.
Proof.
  intros Hd. destruct (decide (path = "/")) as [->|Hne].
  - left. by injection Hd as <-.
  - right. by eapply dispatch_proxied.
Qed.

(** X2. Whatever route handles the request, a response below 400 whose body
    does not decode as JSON makes the handler raise the decoder's error, which
    the client sees as a server error: neither the upstream's status nor 502. *)
Theorem undecodable_body_is_server_error (path : string) (h : prog json)
    (status_code : Z) (text : string) (later : list outcome) :
  dispatch path = Some h -> path <> "/" ->
  status_code < 400 -> json_loads text = None ->
  (run h (Response status_code text :: later)).2 = Some (Raise JSONDecodeError) /\
  respond (Raise JSONDecodeError) = ReplyServerError.
Proof.
  intros Hd Hp Hlt Hj. destruct (dispatch_proxied _ _ Hd Hp) as [up ->].
  rewrite run_sleeper_get. apply Z.leb_gt in Hlt. by rewrite Hlt, Hj.
Qed.

(** X3. A handler never issues more than one outbound request, and the one it
    issues is a GET under the fixed base URL with no query parameters and a
    timeout of ten seconds; it then finishes whatever came back. *)
Theorem at_most_one_plain_request (path : string) (h : prog json)
    (o : outcome) (later : list outcome) :
  dispatch path = Some h ->
  (requests h (o :: later) = [] \/
   exists upstream_path,
     requests h (o :: later)
     = [ {| req_url := SLEEPER_BASE_URL ++ upstream_path;
            req_params := None; req_timeout := 10 |} ]) /\
  (exists r, (run h (o :: later)).2 = Some r).
Proof.
  intros Hd. destruct (dispatch_handler _ _ Hd) as [-> | [up ->]].
  - split; [by left|]. by eexists.
  - split.
    + right. exists up. unfold sleeper_get. cbn [requests].
      destruct o as [st text|e]; [|done].
      destruct (400 <=? st); [done|]. by destruct (json_loads text).
    + rewrite run_sleeper_get. by eexists.
Qed.

End ProxyClaims.

(** * Properties of the cache loader *)

Section CacheFacts.
Import Py Cache.
Context `{Runtime}.

Lemma players_rows_some m t : players_rows {| meta := m; players := Some t |} = t.
Proof. reflexivity. Qed.

Lemma bind_unfold {A B} (m : M A) (f : A -> M B) (c : conn) :
  (m ≫= f) c = match m c with
               | (Ok a, c') => f a c'
               | (Raise e, c') => (Raise e, c')
               end.
Proof. reflexivity. Qed.

Ltac case_fault w :=
  match goal with
  | |- context [fault w ?j] => destruct (fault w j) eqn:?
  end.

Lemma ensure_db_cases w s k :
  match ensure_db w {| disk := s; txn := None; clock := k |} with
  | (Ok _, c') =>
      disk c' = ensured s /\ txn c' = None /\
      clock c' = (k + 8)%nat /\ quiet w k (k + 8)
  | (Raise _, c') => txn c' = None /\ same_rows s (disk c')
  end.
Proof.
  unfold ensure_db, same_rows.
  repeat (rewrite bind_unfold; unfold execute at 1; cbn;
          case_fault w; [done|]).
  unfold execute; cbn.
  case_fault w; [done|].
  split; [done|]. split; [done|]. split; [cbn; lia|].
  intros j Hj.
  assert (Hcase : j = k \/ j = S k \/ j = S (S k) \/ j = S (S (S k)) \/
                  j = S (S (S (S k))) \/ j = S (S (S (S (S k)))) \/
                  j = S (S (S (S (S (S k))))) \/ j = S (S (S (S (S (S (S k))))))) by lia.
  repeat destruct Hcase as [-> | Hcase]; try subst j; assumption.
Qed.

Lemma execute_dml_in_txn w stmt d t k :
  execute_dml w stmt {| disk := d; txn := Some t; clock := k |}
  = if fault w k then (Raise OperationalError, {| disk := d; txn := Some t; clock := S k |})
    else match stmt t with
         | Ok s => (Ok (), {| disk := d; txn := Some s; clock := S k |})
         | Raise e => (Raise e, {| disk := d; txn := Some t; clock := S k |})
         end.
Proof. reflexivity. Qed.

Lemma executemany_cases w rows d m pl k :
  match executemany w rows
          {| disk := d; txn := Some {| meta := m; players := Some pl |}; clock := k |} with
  | (Ok _, c') =>
      disk c' = d /\
      clock c' = (k + length rows)%nat /\ quiet w k (k + length rows) /\
      exists stored,
        Forall2 stores rows stored /\
        txn c' = Some {| meta := m; players := Some (upsert_all pl stored) |}
  | (Raise _, c') => disk c' = d
  end.
Proof.
  revert pl k. induction rows as [|r rows IH]; intros pl k.
  - cbn. split; [done|]. split; [lia|]. split; [intros j Hj; lia|].
    exists []. split; [constructor|done].
  - cbn [executemany]. rewrite bind_unfold. unfold lift at 1.
    destruct (rmap bind_param r) as [vals|e] eqn:Eb; [|done].
    rewrite bind_unfold, execute_dml_in_txn.
    destruct (fault w k) eqn:Hk; [done|].
    unfold insert_player. cbn [players meta].
    destruct (length vals =? length players_schema)%nat eqn:El; cbn [negb]; [|done].
    destruct (violates_not_null (new_row vals)) eqn:Ev; [done|].
    specialize (IH (upsert (new_row vals) pl) (S k)).
    destruct (executemany w rows _) as [[u|e] c']; [|done].
    destruct IH as (Hd & Hck & Hq & stored & Hst & Ht). split; [done|].
    split; [cbn [length]; lia|]. split.
    { intros j Hj. destruct (decide (j = k)) as [->|Hne]; [done|].
      apply Hq. cbn [length] in Hj. lia. }
    exists (new_row vals :: stored). split; [|done].
    constructor; [|done]. exists vals. apply Nat.eqb_eq in El. done.
Qed.

Lemma mark_cached_cases w n d m pl k :
  match mark_cached w n
          {| disk := d; txn := Some {| meta := Some m; players := pl |}; clock := k |} with
  | (Ok _, c') =>
      disk c' = d /\
      clock c' = (k + 3)%nat /\ quiet w k (k + 3) /\
      txn c' = Some {| meta := Some (cached_meta w n m); players := pl |}
  | (Raise _, c') => disk c' = d
  end.
Proof.
  unfold mark_cached.
  repeat (rewrite bind_unfold, execute_dml_in_txn;
          case_fault w; [done|]; cbn [meta_upsert meta players]).
  rewrite execute_dml_in_txn. case_fault w; [done|].
  cbn [meta_upsert meta players].
  split; [done|]. split; [cbn; lia|]. split; [|done].
  intros j Hj. assert (Hcase : j = k \/ j = S k \/ j = S (S k)) by lia.
  repeat destruct Hcase as [-> | Hcase]; try subst j; assumption.
Qed.

(** [conn.rollback()] never touches the committed store. *)
Lemma rollback_disk w c : disk (rollback w c).2 = disk c.
Proof. unfold rollback. destruct (txn c); [|done]. by destruct (fault w _). Qed.

Lemma same_rows_ensured s : same_rows s (ensured s).
Proof. done. Qed.

Ltac fails :=
  lazymatch goal with
  | |- context [rollback ?w ?c] =>
      let Hk := fresh in
      pose proof (rollback_disk w c) as Hk;
      destruct (rollback w c) as [[?|?] ?]; cbn in Hk |- *; rewrite Hk;
      try match goal with Hx : disk _ = ensured _ |- _ => rewrite Hx end;
      apply same_rows_ensured
  end.

(** Every run either raises and leaves the rows of both tables as they were,
    or returns the number of prepared rows with every one of them upserted
    and the three meta keys set. *)
Lemma run_loader_cases w s :
  match run_loader w s with
  | (Ok n, s') =>
      exists obj rows stored,
        upstream w = Ok obj /\
        prepare_rows (now w) obj = Ok rows /\
        n = length rows /\
        quiet w 0 (n + 13) /\
        Forall2 stores rows stored /\
        s' = {| meta := Some (cached_meta w n (meta_rows s));
                players := Some (upsert_all (players_rows s) stored) |}
  | (Raise _, s') => same_rows s s'
  end.
Proof.
  unfold run_loader, main, connect.
  unfold main_body. rewrite bind_unfold.
  pose proof (ensure_db_cases w s 0) as He.
  destruct (ensure_db w _) as [[u|e] c1].
  2:{ destruct He as [Ht Hs]. unfold rollback. rewrite Ht. done. }
  destruct c1 as [d1 t1 k1]. cbn in He. destruct He as (-> & -> & -> & Hq1).
  rewrite bind_unfold. unfold fetch_players, lift at 1.
  destruct (upstream w) as [obj|e] eqn:Eu; [|fails].
  rewrite bind_unfold. unfold lift at 1.
  destruct (prepare_rows (now w) obj) as [rows|e] eqn:Ep; [|fails].
  rewrite bind_unfold. unfold begin at 1. cbn [clock txn disk].
  destruct (fault w 8) eqn:Hq2; [fails|].
  rewrite bind_unfold.
  pose proof (executemany_cases w rows (ensured s) (Some (meta_rows s)) (players_rows s) 9) as Hx.
  unfold ensured at 2.
  destruct (executemany w rows _) as [[u1|e] c2]; [|fails].
  destruct Hx as (Hd & Hck & Hq3 & stored & Hst & Ht).
  destruct c2 as [d2 t2 k2]. cbn in Hd, Ht, Hck. subst d2 t2 k2.
  rewrite bind_unfold.
  pose proof (mark_cached_cases w (length rows) (ensured s) (meta_rows s)
                (Some (upsert_all (players_rows s) stored)) (9 + length rows)) as Hm.
  destruct (mark_cached w _ _) as [[u2|e] c3]; [|fails].
  destruct Hm as (Hd & Hck & Hq4 & Ht).
  destruct c3 as [d3 t3 k3]. cbn in Hd, Ht, Hck. subst d3 t3 k3.
  rewrite bind_unfold. unfold commit at 1. cbn [clock txn disk].
  case_fault w; [fails|].
  cbn. exists obj, rows, stored. split; [done|]. split; [done|]. split; [done|].
  split; [|done].
  intros j Hj.
  destruct (decide (j < 8)%nat); [apply Hq1; lia|].
  destruct (decide (j = 8)%nat) as [->|]; [done|].
  destruct (decide (j < 9 + length rows)%nat); [apply Hq3; lia|].
  destruct (decide (j < 9 + length rows + 3)%nat); [apply Hq4; lia|].
  match goal with
  | Hq : fault w ?x = false |- fault w j = false => replace j with x by lia; exact Hq
  end.
Qed.

Lemma rmap_cons_inv {A B} (f : A -> result B) x l ys :
  rmap f (x :: l) = Ok ys ->
  exists y ys', f x = Ok y /\ rmap f l = Ok ys' /\ ys = y :: ys'.
Proof.
  cbn. destruct (f x) as [y|e]; cbn; [|done].
  destruct (rmap f l) as [ys'|e]; cbn; [|done].
  intros [= <-]. eauto.
Qed.

Lemma rmap_nil_inv {A B} (f : A -> result B) ys : rmap f [] = Ok ys -> ys = [].
Proof. by intros [= <-]. Qed.

Ltac rmap_inv H :=
  repeat (apply rmap_cons_inv in H as (? & ? & ? & H & ->));
  apply rmap_nil_inv in H as ->.

Lemma bind_param_str s v : bind_param (JStr s) = Ok v -> v = SqlText s.
Proof. by intros [= <-]. Qed.

Lemma bind_param_int n v : bind_param (JInt n) = Ok v -> v = SqlInt n.
Proof. cbn. by destruct (_ && _); intros [= <-]. Qed.

Lemma bind_param_null v : bind_param JNull = Ok v -> v = SqlNull.
Proof. by intros [= <-]. Qed.

(** What a stored row holds, column by column, for a prepared entry. *)
Lemma stored_row_columns now entry tuple v :
  prepare_row now entry = Ok tuple -> stores tuple v ->
  length v = 19%nat /\
  pk v = SqlText (entry_key entry) /\
  col "data_json" v = SqlText (json_dumps "," ":" entry.2) /\
  col "updated_at" v = SqlInt now /\
  (forall c, c ∈ optional_columns ->
     Forall (fun f => field_value entry f = JNull) (source_fields c) ->
     col c v = SqlNull).
Proof.
  unfold prepare_row, entry_key, field_value.
  destruct entry as [key p]. cbn [fst snd].
  destruct p as [| | | | | |p]; try done.
  destruct (full_name_of _ _ _) as [full|e] eqn:Ef; cbn [rbind]; [|done].
  intros [= <-] (vals & Hb & Hl & -> & Hnn).
  rmap_inv Hb.
  repeat match goal with
  | Hx : bind_param (JStr _) = Ok _ |- _ => apply bind_param_str in Hx as ->
  | Hx : bind_param (JInt _) = Ok _ |- _ => apply bind_param_int in Hx as ->
  end.
  split; [done|]. split; [done|]. split; [done|]. split; [done|].
  intros c Hc Hf. unfold optional_columns in Hc.
  repeat (apply elem_of_cons in Hc as [-> | Hc];
          [cbn in Hf;
           repeat match goal with
           | Hx : Forall _ (_ :: _) |- _ => apply Forall_cons in Hx as [? Hx]
           end;
           repeat match goal with
           | Hx : dict_get p _ = JNull |- _ => rewrite Hx in *; clear Hx
           end;
           try (cbn in Ef; injection Ef as <-);
           repeat match goal with
           | Hx : bind_param JNull = Ok _ |- _ => apply bind_param_null in Hx as ->
           end; reflexivity|]).
  by apply elem_of_nil in Hc.
Qed.

Lemma conflicts_good old v :
  is_null (pk v) = false -> conflicts old v = bool_decide (pk old = pk v).
Proof. unfold conflicts, pk. by intros ->. Qed.

Lemma do_update_full old v :
  length v = 19%nat -> pk old = pk v -> do_update old v = v.
Proof.
  intros Hl Hpk.
  do 19 (destruct v as [|? v]; [done|]). destruct v; [|done].
  unfold do_update. cbn. f_equal. exact Hpk.
Qed.


Lemma pk_replaced v r : pk (replaced v r) = pk r.
Proof. unfold replaced. by case_bool_decide. Qed.

Lemma upsert_elem v t r :
  good v -> r ∈ upsert v t -> r = v \/ r ∈ t.
Proof.
  intros [Hl Hn]. induction t as [|old t IH]; cbn [upsert].
  - intros ?%list_elem_of_singleton. by left.
  - rewrite conflicts_good by done. case_bool_decide as Hc.
    + rewrite do_update_full by done.
      intros [->|?]%elem_of_cons; [by left|right; by right].
    + intros [->|Hr]%elem_of_cons; [right; by left|].
      destruct (IH Hr); [by left|right; by right].
Qed.

Lemma upsert_has v t : good v -> v ∈ upsert v t.
Proof.
  intros [Hl Hn]. induction t as [|old t IH]; cbn [upsert]; [by left|].
  rewrite conflicts_good by done. case_bool_decide as Hc.
  - rewrite do_update_full by done. by left.
  - by right.
Qed.

Lemma pk_unique_cons r t :
  pk_unique (r :: t) = true <->
  Forall (fun r' => conflicts r' r = false) t /\ pk_unique t = true.
Proof.
  cbn. rewrite andb_true_iff, forallb_forall, Forall_forall.
  split; intros [Hf Hu]; (split; [|done]); intros x Hx.
  - apply negb_true_iff, Hf. by apply list_elem_of_In.
  - apply negb_true_iff, Hf. by apply list_elem_of_In in Hx.
Qed.

(** With unique keys the upsert rewrites the one colliding row, or appends. *)
Lemma upsert_unique v t :
  good v -> pk_unique t = true ->
  upsert v t = (if bool_decide (pk v ∈ map pk t) then map (replaced v) t else (t ++ [v])%list).
Proof.
  intros [Hl Hn] Hu. induction t as [|old t IH]; [done|].
  apply pk_unique_cons in Hu as [Hf Hu]. specialize (IH Hu).
  cbn [upsert]. rewrite conflicts_good by done.
  destruct (decide (pk old = pk v)) as [Hc|Hc].
  - rewrite (bool_decide_true (pk old = pk v)) by done.
    rewrite bool_decide_true by (cbn [map]; apply elem_of_cons; by left).
    rewrite do_update_full by done.
    cbn [map]. unfold replaced at 1. rewrite bool_decide_true by done. f_equal.
    symmetry. rewrite <- (map_id t) at 2. apply map_ext_in. intros r Hr.
    unfold replaced. destruct (decide (pk r = pk v)) as [Hr'|Hr'];
      [|by rewrite bool_decide_false].
    exfalso. rewrite Forall_forall in Hf. apply list_elem_of_In, Hf in Hr.
    unfold conflicts in Hr. fold (pk r) (pk old) in Hr.
    rewrite Hr', <- Hc in Hr.
    rewrite bool_decide_true in Hr by done. rewrite <- Hc in Hn. by rewrite Hn in Hr.
  - rewrite (bool_decide_false (pk old = pk v)) by done. rewrite IH.
    destruct (decide (pk v ∈ map pk t)) as [Hin|Hin].
    + rewrite (bool_decide_true (pk v ∈ map pk t)) by done.
      rewrite bool_decide_true by (cbn [map]; apply elem_of_cons; by right).
      cbn [map]. unfold replaced at 2. by rewrite bool_decide_false.
    + rewrite (bool_decide_false (pk v ∈ map pk t)) by done.
      rewrite bool_decide_false; [done|].
      cbn [map]. intros [?|?]%elem_of_cons; [by apply Hc|done].
Qed.

Lemma conflicts_replaced v r r' :
  conflicts (replaced v r') (replaced v r) = conflicts r' r.
Proof.
  unfold conflicts. fold (pk (replaced v r)) (pk (replaced v r')) (pk r) (pk r').
  by rewrite !pk_replaced.
Qed.

Lemma forallb_through_map {A B} (f : B -> bool) (f' : A -> bool) (g : A -> B) l :
  (forall x, f (g x) = f' x) -> forallb f (map g l) = forallb f' l.
Proof. intros Hf. induction l as [|x l IH]; [done|]. cbn. by rewrite IH, Hf. Qed.

Lemma pk_unique_replaced v t :
  pk_unique (map (replaced v) t) = pk_unique t.
Proof.
  induction t as [|r t IH]; [done|]. cbn. rewrite IH. f_equal.
  apply forallb_through_map. intros r'. by rewrite conflicts_replaced.
Qed.

Lemma pk_unique_snoc t v :
  is_null (pk v) = false ->
  pk_unique t = true -> pk v ∉ map pk t -> pk_unique (t ++ [v])%list = true.
Proof.
  intros Hn Hu Hv. induction t as [|r t IH]; [done|].
  apply pk_unique_cons in Hu as [Hf Hu].
  cbn [app]. apply pk_unique_cons. split.
  - apply Forall_app. split; [done|]. constructor; [|done].
    unfold conflicts. fold (pk v) (pk r).
    destruct (is_null (pk r)); [done|]. cbn.
    apply bool_decide_false. intros Heq. apply Hv. rewrite Heq. cbn [map].
    apply elem_of_cons. by left.
  - apply IH; [done|]. intros Hin. apply Hv. cbn [map]. apply elem_of_cons. by right.
Qed.

Lemma upsert_pk_unique v t :
  good v -> pk_unique t = true -> pk_unique (upsert v t) = true.
Proof.
  intros Hg Hu. rewrite upsert_unique by done. case_bool_decide.
  - by rewrite pk_unique_replaced.
  - apply pk_unique_snoc; [apply Hg|done..].
Qed.

Lemma upsert_elem_unique v t r :
  good v -> pk_unique t = true -> r ∈ upsert v t ->
  r = v \/ (r ∈ t /\ pk r <> pk v).
Proof.
  intros Hg Hu. rewrite upsert_unique by done. case_bool_decide as Hin.
  - intros (r0 & -> & Hr0)%list_elem_of_fmap. unfold replaced.
    case_bool_decide; [by left|by right].
  - intros [Hr| ->%list_elem_of_singleton]%elem_of_app; [right|by left].
    split; [done|]. intros Heq. apply Hin. rewrite <- Heq.
    by apply list_elem_of_fmap_2.
Qed.

Lemma upsert_keeps_keys v t k :
  good v -> pk_unique t = true -> k ∈ map pk t -> k ∈ map pk (upsert v t).
Proof.
  intros Hg Hu Hk. rewrite upsert_unique by done. case_bool_decide.
  - rewrite map_map. erewrite map_ext; [exact Hk|]. intros r. apply pk_replaced.
  - rewrite map_app. apply elem_of_app. by left.
Qed.

Lemma last_with_Some k vs r : last_with k vs = Some r -> r ∈ vs /\ pk r = k.
Proof.
  induction vs as [|v vs IH]; cbn; [done|].
  destruct (last_with k vs) as [x|].
  - intros [= ->]. destruct IH as [? ?]; [done|]. split; [by right|done].
  - case_bool_decide; [|done]. intros [= ->]. split; [by left|done].
Qed.

Lemma last_with_None k vs : last_with k vs = None <-> k ∉ map pk vs.
Proof.
  induction vs as [|v vs IH]; cbn.
  - split; [|done]. intros _ ?%elem_of_nil. done.
  - rewrite not_elem_of_cons. destruct (last_with k vs) as [x|].
    + split; [done|]. intros [_ Hk]. by apply IH in Hk.
    + case_bool_decide as Hv.
      * split; [done|]. intros [Hk _]. done.
      * split; [|done]. intros _. split; [done|]. by apply IH.
Qed.

Lemma last_with_app_fresh k vs v after :
  pk v = k -> k ∉ map pk after -> last_with k (vs ++ v :: after)%list = Some v.
Proof.
  intros Hv Ha. induction vs as [|x vs IH]; cbn.
  - apply last_with_None in Ha. rewrite Ha. by rewrite bool_decide_true.
  - by rewrite IH.
Qed.

(** What the table holds once [vs] has been upserted row by row. *)
Lemma upsert_all_spec vs t :
  Forall good vs -> pk_unique t = true ->
  pk_unique (upsert_all t vs) = true /\
  (forall r, r ∈ upsert_all t vs ->
     last_with (pk r) vs = Some r \/ (last_with (pk r) vs = None /\ r ∈ t)) /\
  (forall k, k ∈ map pk t \/ k ∈ map pk vs -> k ∈ map pk (upsert_all t vs)).
Proof.
  intros Hg. revert t. induction Hg as [|v vs Hv Hvs IH]; intros t Hu.
  - cbn. split; [done|]. split; [by right|]. intros k [?|?%elem_of_nil]; done.
  - specialize (IH (upsert v t) (upsert_pk_unique _ _ Hv Hu)) as (IH1 & IH2 & IH3).
    change (upsert_all t (v :: vs)) with (upsert_all (upsert v t) vs).
    split; [done|]. split.
    + intros r Hr. cbn [last_with].
      destruct (IH2 r Hr) as [-> | [-> Hr']]; [by left|].
      destruct (upsert_elem_unique _ _ _ Hv Hu Hr') as [-> | [Hin Hne]].
      * left. by rewrite bool_decide_true.
      * right. rewrite bool_decide_false by done. done.
    + intros k Hk. apply IH3. cbn [map] in Hk. rewrite elem_of_cons in Hk.
      destruct Hk as [Hk | [-> | Hk]].
      * left. by apply upsert_keeps_keys.
      * left. apply list_elem_of_fmap_2. by apply upsert_has.
      * by right.
Qed.

(** When every key is already in the table the upserts rewrite rows in
    place. *)
Lemma upsert_all_present vs t :
  Forall good vs -> pk_unique t = true ->
  (forall v, v ∈ vs -> pk v ∈ map pk t) ->
  upsert_all t vs = map (fun r => default r (last_with (pk r) vs)) t.
Proof.
  intros Hg. revert t. induction Hg as [|v vs Hv Hvs IH]; intros t Hu Hin.
  - cbn. by rewrite map_id.
  - change (upsert_all t (v :: vs)) with (upsert_all (upsert v t) vs).
    assert (Hup : upsert v t = map (replaced v) t).
    { rewrite upsert_unique by done. rewrite bool_decide_true; [done|].
      apply Hin. by left. }
    rewrite IH.
    + rewrite Hup, map_map. apply map_ext. intros r. rewrite pk_replaced.
      cbn [last_with]. destruct (last_with (pk r) vs); [done|].
      unfold replaced. destruct (decide (pk r = pk v)) as [He|He].
      * by rewrite !bool_decide_true.
      * by rewrite !bool_decide_false.
    + by apply upsert_pk_unique.
    + intros v' Hv'. apply upsert_keeps_keys; [done..|]. apply Hin. by right.
Qed.

Lemma rmap_Forall2 {A B} (f : A -> result B) l ys :
  rmap f l = Ok ys -> Forall2 (fun x y => f x = Ok y) l ys.
Proof.
  revert ys. induction l as [|x l IH]; intros ys Hr.
  - injection Hr as <-. constructor.
  - cbn in Hr. destruct (f x) as [y|] eqn:Ey; cbn in Hr; [|done].
    destruct (rmap f l) as [ys'|]; cbn in Hr; [|done].
    injection Hr as <-. constructor; [done|]. by apply IH.
Qed.

Lemma Forall2_compose {A B C} (P : A -> B -> Prop) (Q : B -> C -> Prop) l1 l2 l3 :
  Forall2 P l1 l2 -> Forall2 Q l2 l3 ->
  Forall2 (fun a c => exists b, P a b /\ Q b c) l1 l3.
Proof.
  intros HP. revert l3. induction HP; intros l3 HQ; inversion HQ; subst; constructor; eauto.
Qed.

(** A successful run, read back: the fetched object is a mapping, each of its
    entries was prepared and stored, and the two tables are the old ones with
    the rows upserted and the meta keys set. *)
Lemma run_loader_ok w s n s' :
  run_loader w s = (Ok n, s') ->
  exists entries stored,
    upstream w = Ok (JObj entries) /\
    n = length entries /\
    quiet w 0 (n + 13) /\
    Forall2 (row_of (now w)) entries stored /\
    s' = {| meta := Some (cached_meta w n (meta_rows s));
            players := Some (upsert_all (players_rows s) stored) |}.
Proof.
  intros Hrun. pose proof (run_loader_cases w s) as Hc. rewrite Hrun in Hc.
  destruct Hc as (obj & rows & stored & Hu & Hp & -> & Hq & Hst & ->).
  unfold prepare_rows in Hp. destruct obj as [| | | | | |entries]; try done.
  cbn in Hp. apply rmap_Forall2 in Hp.
  pose proof (Forall2_length _ _ _ Hp) as Hlen. rewrite <- Hlen in *.
  exists entries, stored. split; [done|]. split; [done|]. split; [done|]. split; [|done].
  eapply Forall2_impl; [by eapply Forall2_compose|]. cbn. intros e v (t & ? & ?). by exists t.
Qed.

Lemma run_loader_raise w s e s' :
  run_loader w s = (Raise e, s') -> same_rows s s'.
Proof.
  intros Hrun. pose proof (run_loader_cases w s) as Hc. by rewrite Hrun in Hc.
Qed.

Lemma row_of_good now e v : row_of now e v -> good v.
Proof.
  intros (t & Hp & Hs). destruct (stored_row_columns _ _ _ _ Hp Hs) as (Hl & Hpk & _).
  split; [done|]. by rewrite Hpk.
Qed.

Lemma row_of_pk now e v : row_of now e v -> pk v = SqlText (entry_key e).
Proof.
  intros (t & Hp & Hs). by destruct (stored_row_columns _ _ _ _ Hp Hs) as (_ & Hpk & _).
Qed.

Lemma rows_of_good now entries stored :
  Forall2 (row_of now) entries stored -> Forall good stored.
Proof. induction 1; constructor; [by eapply row_of_good|done]. Qed.

Lemma rows_of_keys now entries stored :
  Forall2 (row_of now) entries stored ->
  map pk stored = map (fun e => SqlText (entry_key e)) entries.
Proof. induction 1; cbn; [done|]. f_equal; [by eapply row_of_pk|done]. Qed.

Lemma rows_of_elem now entries stored v :
  Forall2 (row_of now) entries stored -> v ∈ stored ->
  exists e, e ∈ entries /\ row_of now e v.
Proof.
  induction 1 as [|e v' es vs He Hes IH]; [by intros ?%elem_of_nil|].
  intros [->|Hv]%elem_of_cons.
  - exists e. split; [by left|done].
  - destruct (IH Hv) as (e' & ? & ?). exists e'. split; [by right|done].
Qed.

Lemma full_name_of_raises a b fb :
  name_ok a && name_ok b = false -> full_name_of a b fb = Raise TypeError.
Proof.
  intros Hn. unfold full_name_of. cbn [List.filter].
  apply andb_false_iff in Hn. unfold name_ok in Hn.
  destruct (truthy a) eqn:Ta, (truthy b) eqn:Tb; cbn [negb] in Hn;
    rewrite ?orb_false_r, ?orb_true_r in Hn;
    destruct a, b; cbn [join_space rbind is_str] in *;
    try done; destruct Hn; done.
Qed.

(** A name the join accepts is a non-empty string or counts as false. *)
Lemma name_ok_cases v :
  name_ok v = true -> (exists x, v = JStr x /\ x <> "") \/ truthy v = false.
Proof.
  unfold name_ok. destruct (truthy v) eqn:Tv; [|by right].
  rewrite orb_false_r. destruct v; try done. intros _. left. eexists. split; [done|].
  intros ->. done.
Qed.

(** C1 (as amended). The [full_name] of a row, for every record. When
    [first_name] and [last_name] are each a string or a value that counts as
    false, it is the space-joined concatenation of those of the two that are
    non-empty strings: both when both are, the one that is when the other is
    missing or empty; only when neither is does the row take the upstream
    [full_name] field. When one of the two is a truthy value that is not a
    string, the join raises [TypeError] and the entry gives no row. These
    five cases cover every record. *)
Theorem full_name_joins_nonempty_names (now : Z) (key : string) (p : list (string * json)) :
  let first := dict_get p "first_name" in
  let last := dict_get p "last_name" in
  (forall f l, first = JStr f -> last = JStr l -> f <> "" -> l <> "" ->
     row_full_name now (key, JObj p) = Ok (JStr (f ++ " " ++ l))) /\
  (forall f, first = JStr f -> f <> "" -> truthy last = false ->
     row_full_name now (key, JObj p) = Ok (JStr f)) /\
  (forall l, truthy first = false -> last = JStr l -> l <> "" ->
     row_full_name now (key, JObj p) = Ok (JStr l)) /\
  (truthy first = false -> truthy last = false ->
     row_full_name now (key, JObj p) = Ok (dict_get p "full_name")) /\
  (name_ok first && name_ok last = false ->
     prepare_row now (key, JObj p) = Raise TypeError /\
     row_full_name now (key, JObj p) = Raise TypeError) /\
  ((exists f l, first = JStr f /\ last = JStr l /\ f <> "" /\ l <> "") \/
   (exists f, first = JStr f /\ f <> "" /\ truthy last = false) \/
   (exists l, truthy first = false /\ last = JStr l /\ l <> "") \/
   (truthy first = false /\ truthy last = false) \/
   name_ok first && name_ok last = false).
Proof.
  intros first last.
  assert (Hne : forall s, s <> "" -> String.eqb s "" = false).
  { intros s Hs. by apply String.eqb_neq. }
  assert (Hcat : forall f l, f <> "" -> String.eqb (f ++ " " ++ l) "" = false).
  { intros [|c f] l Hf; [done|]. reflexivity. }
  split; [|split; [|split; [|split; [|split]]]].
  - unfold row_full_name, prepare_row, full_name_of. cbn [fst snd]. fold first last.
    intros f l -> -> Hf Hl. cbn [List.filter truthy]. rewrite (Hne f Hf), (Hne l Hl).
    cbn. unfold py_or. cbn [truthy]. by rewrite (Hcat f l Hf).
  - unfold row_full_name, prepare_row, full_name_of. cbn [fst snd]. fold first last.
    intros f -> Hf Hl. cbn [List.filter truthy]. rewrite (Hne f Hf), Hl.
    cbn. unfold py_or. cbn [truthy]. by rewrite (Hne f Hf).
  - unfold row_full_name, prepare_row, full_name_of. cbn [fst snd]. fold first last.
    intros l Hf -> Hl. cbn [List.filter]. rewrite Hf. cbn [truthy]. rewrite (Hne l Hl).
    cbn. unfold py_or. cbn [truthy]. by rewrite (Hne l Hl).
  - unfold row_full_name, prepare_row, full_name_of. cbn [fst snd]. fold first last.
    intros Hf Hl. cbn [List.filter]. rewrite Hf, Hl. reflexivity.
  - intros Hn. unfold row_full_name, prepare_row. cbn [fst snd]. fold first last.
    by rewrite (full_name_of_raises _ _ _ Hn).
  - destruct (name_ok first && name_ok last) eqn:Hn; [|by do 4 right].
    apply andb_true_iff in Hn as [Hf Hl].
    destruct (name_ok_cases _ Hf) as [(f & Ef & Hfne)|Tf],
             (name_ok_cases _ Hl) as [(l & El & Hlne)|Tl].
    + left. by exists f, l.
    + right. left. by exists f.
    + right. right. left. by exists l.
    + right. right. right. by left.
Qed.

Lemma upsert_keeps r v t : r ∈ t -> pk r <> pk v -> r ∈ upsert v t.
Proof.
  intros Hr Hk. induction t as [|old t IH]; [by apply elem_of_nil in Hr|].
  cbn [upsert]. unfold conflicts.
  apply elem_of_cons in Hr as [->|Hr].
  - rewrite (bool_decide_false _ Hk), andb_false_r. by left.
  - destruct (_ && _); right; [done|by apply IH].
Qed.

Lemma upsert_all_keeps r vs :
  forall t, r ∈ t -> pk r ∉ map pk vs -> r ∈ upsert_all t vs.
Proof.
  induction vs as [|v vs IH]; intros t Hr Hk; [done|].
  cbn. apply IH.
  - apply upsert_keeps; [done|]. intros Heq. apply Hk. rewrite Heq. by left.
  - intros Hin. apply Hk. by right.
Qed.

(** The last row upserted under a key is in the table, whatever the table
    held. *)
Lemma upsert_all_last vs :
  Forall good vs ->
  forall t k r, last_with k vs = Some r -> r ∈ upsert_all t vs.
Proof.
  induction 1 as [|v vs Hv Hvs IH]; intros t k r Hl; [done|].
  cbn in Hl |- *. fold (upsert_all (upsert v t) vs).
  destruct (last_with k vs) as [x|] eqn:Elast.
  - injection Hl as ->. by eapply IH.
  - case_bool_decide as Hk; [|done]. injection Hl as ->.
    apply upsert_all_keeps; [by apply upsert_has|].
    rewrite Hk. by apply last_with_None.
Qed.

(** C2. A run is all-or-nothing. Either it raises, and both tables hold the
    rows they held before the run; or it returns, and every fetched entry
    was written: each entry that no later entry overrides under the same key
    has its own row in [players], with the entry's key, its payload and the
    run's fetch time, every entry's key has a row that this run wrote from an
    entry with that key, and [meta] has the three keys set. A failure of row
    preparation, or of any of the statements of the run (the eight of
    [ensure_db], BEGIN, one INSERT per row, the three of [mark_cached],
    COMMIT), makes the run raise. *)
Theorem loader_all_or_nothing (w : world) (s : store) :
  ((exists e s',
      run_loader w s = (Raise e, s') /\
      players_rows s' = players_rows s /\ meta_rows s' = meta_rows s) \/
   (exists entries stored s',
      run_loader w s = (Ok (length entries), s') /\
      upstream w = Ok (JObj entries) /\
      Forall2 (row_of (now w)) entries stored /\
      players_rows s' = upsert_all (players_rows s) stored /\
      (forall before e after,
         entries = (before ++ e :: after)%list ->
         entry_key e ∉ map entry_key after ->
         exists r,
           row_of (now w) e r /\
           r ∈ players_rows s' /\
           pk r = SqlText (entry_key e) /\
           col "data_json" r = SqlText (json_dumps "," ":" e.2) /\
           col "updated_at" r = SqlInt (now w)) /\
      (forall e,
         e ∈ entries ->
         exists e' r,
           e' ∈ entries /\ entry_key e' = entry_key e /\
           row_of (now w) e' r /\
           last_with (SqlText (entry_key e)) stored = Some r /\
           r ∈ players_rows s' /\
           pk r = SqlText (entry_key e) /\
           col "data_json" r = SqlText (json_dumps "," ":" e'.2) /\
           col "updated_at" r = SqlInt (now w)) /\
      meta_rows s' = cached_meta w (length entries) (meta_rows s) /\
      meta_rows s' !! "players_cached" = Some "1" /\
      meta_rows s' !! "players_cached_at" = Some (ctime w) /\
      meta_rows s' !! "players_count" = Some (pretty (length entries)))) /\
  (forall obj e,
     upstream w = Ok obj -> prepare_rows (now w) obj = Raise e ->
     exists e' s', run_loader w s = (Raise e', s')) /\
  (forall entries k,
     upstream w = Ok (JObj entries) -> (k < length entries + 13)%nat -> fault w k = true ->
     exists e' s', run_loader w s = (Raise e', s')).
Proof.
  pose proof (run_loader_cases w s) as Hcases.
  destruct (run_loader w s) as [[n|e] s'] eqn:Hrun.
  - destruct (run_loader_ok _ _ _ _ Hrun) as (entries & stored & Hu & -> & Hq & Hst & ->).
    destruct Hcases as (obj & rows & _ & Hu' & Hp & _).
    pose proof (rows_of_good _ _ _ Hst) as Hgood.
    pose proof (rows_of_keys _ _ _ Hst) as Hkeys.
    split; [right|split].
    + exists entries, stored. eexists. split; [done|]. split; [done|]. split; [done|].
      split; [done|]. rewrite players_rows_some. split; [|split].
      * intros before e after -> Hlast.
        apply Forall2_app_inv_l in Hst as (sb & sa' & Hsb & Hsa & ->).
        apply Forall2_cons_inv_l in Hsa as (v & sa & Hv & Hsa & ->).
        pose proof Hv as (tuple & Hpv & Hsv).
        destruct (stored_row_columns _ _ _ _ Hpv Hsv) as (_ & Hpk & Hd & Hat & _).
        exists v. split; [done|]. split; [|done].
        apply (upsert_all_last _ Hgood _ (pk v)).
        apply last_with_app_fresh; [done|]. rewrite Hpk, (rows_of_keys _ _ _ Hsa).
        intros (e' & [= Heq] & He')%list_elem_of_fmap. apply Hlast. rewrite Heq.
        by apply list_elem_of_fmap_2.
      * intros e He.
        destruct (last_with (SqlText (entry_key e)) stored) as [r|] eqn:Elast.
        -- pose proof (last_with_Some _ _ _ Elast) as [Hr Hpk].
           destruct (rows_of_elem _ _ _ _ Hst Hr) as (e' & He' & Hv).
           pose proof Hv as (tuple & Hpv & Hsv).
           destruct (stored_row_columns _ _ _ _ Hpv Hsv) as (_ & Hpk' & Hd & Hat & _).
           exists e', r. split; [done|]. split; [by rewrite Hpk' in Hpk; injection Hpk|].
           split; [done|]. split; [done|]. split; [by eapply upsert_all_last|done].
        -- apply last_with_None in Elast. destruct Elast. rewrite Hkeys.
           by apply (list_elem_of_fmap_2 (fun e => SqlText (entry_key e))).
      * split; [done|]. unfold cached_meta. cbn.
        rewrite lookup_insert_ne, lookup_insert_ne, lookup_insert_eq by done.
        rewrite lookup_insert_ne, lookup_insert_eq by done.
        by rewrite lookup_insert_eq.
    + intros obj' e Hu'' Hp'. rewrite Hu' in Hu''. injection Hu'' as <-.
      by rewrite Hp in Hp'.
    + intros entries' k Hu'' Hk Hf. rewrite Hu in Hu''. injection Hu'' as <-.
      rewrite Hq in Hf by lia. done.
  - split; [left|split]; eauto.
    destruct Hcases as [? ?]. eauto.
Qed.

Lemma row_of_never_null now e v : row_of now e v -> never_null v.
Proof.
  intros (t & Hp & Hs).
  destruct (stored_row_columns _ _ _ _ Hp Hs) as (_ & Hpk & Hd & _).
  split; [by rewrite Hpk|by rewrite Hd].
Qed.

Lemma run_loader_keeps_invariant w s r s' :
  pk_unique (players_rows s) = true /\ Forall never_null (players_rows s) ->
  run_loader w s = (r, s') ->
  pk_unique (players_rows s') = true /\ Forall never_null (players_rows s').
Proof.
  intros [Hu Hn] Hrun. destruct r as [n|e].
  - destruct (run_loader_ok _ _ _ _ Hrun) as (entries & stored & _ & _ & _ & Hst & ->).
    rewrite !players_rows_some.
    destruct (upsert_all_spec stored (players_rows s)) as (Hu' & Hin & _);
      [by eapply rows_of_good|done|].
    split; [done|]. apply Forall_forall. intros r Hr.
    destruct (Hin r Hr) as [Hl | [_ Hold]].
    + apply last_with_Some in Hl as [Hl _].
      destruct (rows_of_elem _ _ _ _ Hst Hl) as (e & _ & He).
      by eapply row_of_never_null.
    + rewrite Forall_forall in Hn. by apply Hn.
  - apply run_loader_raise in Hrun as [_ ->]. done.
Qed.

Lemma reachable_invariant s :
  reachable s -> pk_unique (players_rows s) = true /\ Forall never_null (players_rows s).
Proof.
  induction 1 as [|w s r s' _ IH Hrun]; [by split|].
  by eapply run_loader_keeps_invariant.
Qed.

(** C7. After a successful run on a store the loader maintains, every row of
    [players] has a [player_id] and a [data_json] that are not NULL; and in
    the row stored for an entry, each of the other field-derived columns is
    NULL once the upstream fields it is computed from are absent. *)
Theorem players_rows_never_null (w : world) (s : store) (n : nat) (s' : store) :
  reachable s -> run_loader w s = (Ok n, s') ->
  Forall never_null (players_rows s') /\
  (forall e v c,
     row_of (now w) e v -> c ∈ optional_columns ->
     Forall (fun f => field_value e f = JNull) (source_fields c) ->
     col c v = SqlNull).
Proof.
  intros Hr Hrun. split.
  - apply (reachable_invariant s'). by econstructor.
  - intros e v c (t & Hp & Hs) Hc Hf.
    destruct (stored_row_columns _ _ _ _ Hp Hs) as (_ & _ & _ & _ & Hnull).
    by apply Hnull.
Qed.

(** C8. After a successful run every entry's key has a row, and every row
    stored under such a key has [updated_at] equal to the run's one fetch
    time, whatever the store held before. *)
Theorem updated_at_is_fetch_time (w : world) (s : store) (n : nat) (s' : store)
    (entries : list (string * json)) :
  pk_unique (players_rows s) = true ->
  run_loader w s = (Ok n, s') -> upstream w = Ok (JObj entries) ->
  Forall (fun e => SqlText (entry_key e) ∈ map pk (players_rows s')) entries /\
  Forall (fun r => written entries r -> col "updated_at" r = SqlInt (now w)) (players_rows s').
Proof.
  intros Hu Hrun Hup.
  destruct (run_loader_ok _ _ _ _ Hrun) as (entries' & stored & Hup' & _ & _ & Hst & ->).
  rewrite Hup in Hup'. injection Hup' as <-.
  rewrite !players_rows_some.
  destruct (upsert_all_spec stored (players_rows s)) as (_ & Hin & Hkeys);
    [by eapply rows_of_good|done|].
  pose proof (rows_of_keys _ _ _ Hst) as Hk.
  split; apply Forall_forall.
  - intros e He. apply Hkeys. right. rewrite Hk.
    by apply (list_elem_of_fmap_2 (fun e => SqlText (entry_key e))).
  - intros r Hr Hw. unfold written in Hw. rewrite <- Hk in Hw.
    destruct (Hin r Hr) as [Hl | [Hl _]].
    + apply last_with_Some in Hl as [Hl _].
      destruct (rows_of_elem _ _ _ _ Hst Hl) as (e & _ & t & Hp & Hs).
      by destruct (stored_row_columns _ _ _ _ Hp Hs) as (_ & _ & _ & Hat & _).
    + by apply last_with_None in Hl.
Qed.

Lemma filter_unique_key t v :
  pk_unique t = true -> v ∈ t -> is_null (pk v) = false ->
  List.filter (fun r => bool_decide (pk r = pk v)) t = [v].
Proof.
  intros Hu Hv Hn. induction t as [|r t IH]; [by apply elem_of_nil in Hv|].
  apply pk_unique_cons in Hu as [Hf Hu]. cbn [List.filter].
  assert (Hnone : pk r = pk v ->
                  List.filter (fun r' => bool_decide (pk r' = pk v)) t = [] /\ v ∉ t).
  { intros Heq. rewrite Forall_forall in Hf.
    assert (Hne : forall r', r' ∈ t -> pk r' <> pk v).
    { intros r' Hr' Heq'. apply Hf in Hr'. unfold conflicts in Hr'.
      rewrite Heq, Hn in Hr'. cbn in Hr'. by rewrite bool_decide_true in Hr'. }
    split; [|intros Hin; by apply (Hne v)].
    clear -Hne. induction t as [|x t IHt]; [done|]. cbn.
    rewrite bool_decide_false by (apply Hne; by left).
    apply IHt. intros r' Hr'. apply Hne. by right. }
  destruct (decide (pk r = pk v)) as [Heq|Hne].
  - rewrite bool_decide_true by done. destruct (Hnone Heq) as [-> Hnin].
    apply elem_of_cons in Hv as [->|Hv]; done.
  - rewrite bool_decide_false by done.
    apply elem_of_cons in Hv as [->|Hv]; [done|]. by apply IH.
Qed.

(** C9. The key of a stored row is the string conversion of the entry's own
    [player_id] when that is truthy, and of the outer mapping key otherwise;
    among entries that derive the same key the last one wins: after a
    successful run the table has exactly one row under that key, the row of
    the last such entry. *)
Theorem derived_key_last_write_wins (w : world) (s : store) (n : nat) (s' : store)
    (before after : list (string * json)) (e : string * json) :
  pk_unique (players_rows s) = true ->
  run_loader w s = (Ok n, s') ->
  upstream w = Ok (JObj (before ++ e :: after)%list) ->
  entry_key e ∉ map entry_key after ->
  exists p tuple v,
    e.2 = JObj p /\
    entry_key e = py_str (if truthy (dict_get p "player_id")
                          then dict_get p "player_id" else JStr e.1) /\
    prepare_row (now w) e = Ok tuple /\
    tuple !! 0%nat = Some (JStr (entry_key e)) /\
    stores tuple v /\
    List.filter (fun r => bool_decide (pk r = SqlText (entry_key e))) (players_rows s') = [v].
Proof.
  intros Hu Hrun Hup Hlast.
  destruct (run_loader_ok _ _ _ _ Hrun) as (entries' & stored & Hup' & _ & _ & Hst & ->).
  rewrite Hup in Hup'. injection Hup' as <-.
  rewrite !players_rows_some.
  apply Forall2_app_inv_l in Hst as (sb & sa' & Hsb & Hsa & ->).
  apply Forall2_cons_inv_l in Hsa as (v & sa & Hv & Hsa & ->).
  pose proof Hv as (tuple & Hp & Hs).
  pose proof (row_of_pk _ _ _ Hv) as Hpk.
  destruct (upsert_all_spec (sb ++ v :: sa)%list (players_rows s)) as (Hu' & Hin & Hkeys).
  { apply Forall_app. split; [by eapply rows_of_good|].
    constructor; [by eapply row_of_good|by eapply rows_of_good]. }
  { done. }
  assert (Hlw : last_with (pk v) (sb ++ v :: sa)%list = Some v).
  { apply last_with_app_fresh; [done|]. rewrite Hpk, (rows_of_keys _ _ _ Hsa).
    intros (e' & [= Heq] & He')%list_elem_of_fmap. apply Hlast. rewrite Heq.
    by apply list_elem_of_fmap_2. }
  assert (Hvin : v ∈ upsert_all (players_rows s) (sb ++ v :: sa)%list).
  { assert (Hk : pk v ∈ map pk (upsert_all (players_rows s) (sb ++ v :: sa)%list)).
    { apply Hkeys. right. apply list_elem_of_fmap_2. apply elem_of_app. right. by left. }
    apply list_elem_of_fmap in Hk as (r & Hr & Hrin).
    destruct (Hin r Hrin) as [Hl | [Hl _]]; rewrite <- Hr, Hlw in Hl; [|done].
    by injection Hl as ->. }
  destruct e as [key q]. unfold prepare_row in Hp. cbn [fst snd] in *.
  destruct q as [| | | | | |p]; try done.
  exists p, tuple, v. split; [done|]. split; [done|]. split; [done|]. split.
  - destruct (full_name_of _ _ _); cbn in Hp; [|done]. by injection Hp as <-.
  - split; [done|]. rewrite <- Hpk. apply filter_unique_key; [done..|]. by rewrite Hpk.
Qed.

Lemma index_of_updated_at c : index_of c columns = 18%nat -> c = "updated_at".
Proof.
  unfold columns. cbn [map players_schema fst snd index_of].
  repeat match goal with
  | |- context [String.eqb c ?s] => destruct (String.eqb c s) eqn:?; [try done|]
  end; [|done].
  intros _. by apply String.eqb_eq.
Qed.

Lemma col_touch_other now c r : c <> "updated_at" -> col c (touch now r) = col c r.
Proof.
  intros Hc. unfold col, touch. rewrite list_lookup_insert_ne; [done|].
  intros Heq. apply Hc, index_of_updated_at. by rewrite <- Heq.
Qed.

Lemma pk_touch now r : pk (touch now r) = pk r.
Proof. by apply col_touch_other. Qed.

Lemma col_touch_updated_at now r :
  length r = 19%nat -> col "updated_at" (touch now r) = SqlInt now.
Proof.
  intros Hl. unfold col, touch. rewrite list_lookup_insert_eq; [done|].
  rewrite Hl. cbn. lia.
Qed.

Lemma last_with_touch now k vs :
  last_with k (map (touch now) vs) = touch now <$> last_with k vs.
Proof.
  induction vs as [|v vs IH]; [done|]. cbn [map last_with]. rewrite IH.
  destruct (last_with k vs); [done|]. rewrite pk_touch. by case_bool_decide.
Qed.

Ltac same_binds :=
  repeat match goal with
  | H1 : ?a = Ok ?x, H2 : ?a = Ok ?y |- _ =>
      tryif constr_eq x y then fail else (rewrite H1 in H2; injection H2 as <-)
  end.

(** Two runs prepare the same entry into rows that differ in [updated_at]
    only. *)
Lemma row_of_touch now1 now2 e v1 v2 :
  row_of now1 e v1 -> row_of now2 e v2 -> v2 = touch now2 v1.
Proof.
  intros (t1 & Hp1 & vals1 & Hb1 & _ & -> & _) (t2 & Hp2 & vals2 & Hb2 & _ & -> & _).
  unfold prepare_row in Hp1, Hp2. destruct e as [key p]. cbn [fst snd] in *.
  destruct p as [| | | | | |p]; try done.
  destruct (full_name_of _ _ _) as [full|]; cbn [rbind] in *; [|done].
  injection Hp1 as <-. injection Hp2 as <-.
  rmap_inv Hb1. rmap_inv Hb2.
  repeat match goal with
  | Hx : bind_param (JInt _) = Ok _ |- _ => apply bind_param_int in Hx as ->
  end.
  same_binds. reflexivity.
Qed.

Lemma rows_of_touch now1 now2 entries stored1 stored2 :
  Forall2 (row_of now1) entries stored1 -> Forall2 (row_of now2) entries stored2 ->
  stored2 = map (touch now2) stored1.
Proof.
  intros H1. revert stored2. induction H1 as [|e v1 es vs1 He1 _ IH]; intros stored2 H2.
  - by inversion H2.
  - inversion H2 as [|? v2 ? vs2 He2 Hes2]; subst. cbn [map]. f_equal.
    + by eapply row_of_touch.
    + by apply IH.
Qed.

Lemma Forall2_map_same {A} (P : A -> A -> Prop) (g : A -> A) l :
  (forall x, x ∈ l -> P x (g x)) -> Forall2 P l (map g l).
Proof.
  induction l as [|x l IH]; intros Hp; cbn; constructor.
  - apply Hp. by left.
  - apply IH. intros y Hy. apply Hp. by right.
Qed.

(** C3 (as amended). Two successful runs against the same upstream mapping:
    the second leaves [players] with as many rows as the first, each row equal
    to what the first run left in every column but [updated_at]; [updated_at]
    is the second run's fetch time in the rows stored under a key of the
    mapping, and is left as it was in every other row. *)
Theorem rerun_rewrites_in_place (w1 w2 : world) (s0 s1 s2 : store) (n1 n2 : nat)
    (entries : list (string * json)) :
  pk_unique (players_rows s0) = true ->
  upstream w1 = Ok (JObj entries) -> upstream w2 = Ok (JObj entries) ->
  run_loader w1 s0 = (Ok n1, s1) -> run_loader w2 s1 = (Ok n2, s2) ->
  length (players_rows s2) = length (players_rows s1) /\
  Forall2 (fun r1 r2 =>
             (forall c, c <> "updated_at" -> col c r2 = col c r1) /\
             (written entries r1 -> col "updated_at" r2 = SqlInt (now w2)) /\
             (~ written entries r1 -> col "updated_at" r2 = col "updated_at" r1))
          (players_rows s1) (players_rows s2).
Proof.
  intros Hu Hup1 Hup2 Hrun1 Hrun2.
  destruct (run_loader_ok _ _ _ _ Hrun1) as (es1 & stored1 & Hup1' & _ & _ & Hst1 & ->).
  rewrite Hup1 in Hup1'. injection Hup1' as <-.
  destruct (run_loader_ok _ _ _ _ Hrun2) as (es2 & stored2 & Hup2' & _ & _ & Hst2 & ->).
  rewrite Hup2 in Hup2'. injection Hup2' as <-.
  rewrite !players_rows_some.
  pose proof (rows_of_touch _ _ _ _ _ Hst1 Hst2) as ->.
  pose proof (rows_of_keys _ _ _ Hst1) as Hk1.
  destruct (upsert_all_spec stored1 (players_rows s0)) as (Hu1 & Hin1 & Hkeys1);
    [by eapply rows_of_good|done|].
  set (t1 := upsert_all (players_rows s0) stored1) in *.
  rewrite (upsert_all_present (map (touch (now w2)) stored1) t1).
  - split; [by rewrite length_map|].
    apply Forall2_map_same. intros r Hr. rewrite last_with_touch.
    destruct (Hin1 r Hr) as [Hl | [Hl Hold]]; rewrite Hl; cbn [fmap option_fmap option_map default].
    + apply last_with_Some in Hl as [Hl _].
      assert (Hw : written entries r).
      { unfold written. rewrite <- Hk1. by apply list_elem_of_fmap_2. }
      destruct (rows_of_elem _ _ _ _ Hst1 Hl) as (e & _ & He).
      apply row_of_good in He as [Hlen _].
      split; [intros c Hc; by apply col_touch_other|].
      split; [intros _; by apply col_touch_updated_at|done].
    + split; [done|]. split; [|done].
      intros Hw. unfold written in Hw. rewrite <- Hk1 in Hw. by apply last_with_None in Hl.
  - by eapply rows_of_good.
  - done.
  - intros v Hv. apply Hkeys1. right.
    apply list_elem_of_fmap in Hv as (v1 & -> & Hv1). rewrite pk_touch.
    by apply list_elem_of_fmap_2.
Qed.

(** ** Further properties of the loader *)

Lemma ensure_db_runs w s k :
  quiet w k (k + 8) ->
  ensure_db w {| disk := s; txn := None; clock := k |}
  = (Ok (), {| disk := ensured s; txn := None; clock := k + 8 |}).
Proof.
  intros Hq. unfold ensure_db.
  repeat (rewrite bind_unfold; unfold execute at 1; cbn; rewrite Hq by lia).
  unfold execute; cbn. rewrite Hq by lia.
  do 2 f_equal. lia.
Qed.

(** Once both tables exist [ensure_db] changes nothing, whether it fails or
    not. *)
Lemma ensure_db_noop w m t k :
  disk (ensure_db w {| disk := {| meta := Some m; players := Some t |};
                       txn := None; clock := k |}).2
  = {| meta := Some m; players := Some t |}.
Proof.
  unfold ensure_db.
  repeat (rewrite bind_unfold; unfold execute at 1; cbn; case_fault w; [done|]).
  unfold execute; cbn. by case_fault w.
Qed.

(** X4. Schema creation is idempotent and never touches rows. On a connection
    with no open transaction [ensure_db] leaves the rows of both tables as
    they were, also when it fails part-way; when it succeeds both tables
    exist, and any later [ensure_db] leaves the store exactly as it is. *)
Theorem ensure_db_creates_once (w : world) (c : conn) :
  txn c = None ->
  same_rows (disk c) (disk (ensure_db w c).2) /\
  (forall c',
     ensure_db w c = (Ok (), c') ->
     disk c' = ensured (disk c) /\ txn c' = None /\
     is_Some (meta (disk c')) /\ is_Some (players (disk c')) /\
     forall w2, disk (ensure_db w2 c').2 = disk c').
Proof.
  destruct c as [s t k]. cbn [txn disk]. intros ->.
  pose proof (ensure_db_cases w s k) as Hc.
  destruct (ensure_db w _) as [[u|e] c1]; cbn [snd].
  - destruct Hc as (Hd & Ht & _ & _). split; [by rewrite Hd|].
    intros c' [= _ <-]. destruct c1 as [d1 t1 k1]. cbn in Hd, Ht. subst d1 t1.
    cbn [disk txn].
    split; [done|]. split; [done|]. split; [by eexists|]. split; [by eexists|].
    intros w2. apply ensure_db_noop.
  - destruct Hc as [_ Hs]. split; [done|]. intros c' [=].
Qed.

(** X5. Once a run has returned, [is_cached] on the store it left answers
    true. *)
Theorem is_cached_after_successful_run (w w2 : world) (s s' : store) (n : nat) :
  run_loader w s = (Ok n, s') -> fault w2 0 = false ->
  (is_cached w2 (connect s')).1 = Ok true.
Proof.
  intros Hrun Hf.
  destruct (run_loader_ok _ _ _ _ Hrun) as (entries & stored & _ & _ & _ & _ & ->).
  unfold is_cached, connect. cbn. rewrite Hf. cbn. f_equal.
  apply bool_decide_true. unfold cached_meta.
  by rewrite lookup_insert_ne, lookup_insert_ne, lookup_insert_eq.
Qed.

Lemma cached_meta_again w n w0 n0 :
  cached_meta w n (cached_meta w0 n0 ∅) = cached_meta w n ∅.
Proof.
  apply map_eq. intros k. unfold cached_meta.
  rewrite !lookup_insert. repeat case_decide; done.
Qed.

Lemma reachable_meta s :
  reachable s -> meta_rows s = ∅ \/ exists w n, meta_rows s = cached_meta w n ∅.
Proof.
  induction 1 as [|w s r s' _ IH Hrun]; [by left|].
  destruct r as [n|e].
  - destruct (run_loader_ok _ _ _ _ Hrun) as (entries & stored & _ & _ & _ & _ & ->).
    right. exists w, n. cbn. destruct IH as [-> | (w0 & n0 & ->)]; [done|].
    apply cached_meta_again.
  - apply run_loader_raise in Hrun as [-> _]. done.
Qed.

(** X6. The meta table of a store the loader maintains is empty or holds
    exactly the three keys of the last completed load, with
    [players_cached] equal to ["1"]; so [is_cached] is true exactly when the
    table is not empty, and raises when the table was never created. *)
Theorem meta_is_empty_or_marked (w : world) (s : store) :
  reachable s -> fault w 0 = false ->
  (meta_rows s = ∅ \/
   exists (t : string) (n : nat),
     meta_rows s = <["players_count" := pretty n]>
                     (<["players_cached_at" := t]> (<["players_cached" := "1"]> ∅))) /\
  (is_cached w (connect s)).1
  = match meta s with
    | None => Raise OperationalError
    | Some m => Ok (bool_decide (m <> ∅))
    end.
Proof.
  intros Hr Hf. pose proof (reachable_meta s Hr) as Hm. split.
  - destruct Hm as [-> | (w0 & n0 & ->)]; [by left|]. right. by exists (ctime w0), n0.
  - unfold is_cached, connect. cbn. rewrite Hf.
    unfold meta_rows in Hm. destruct (meta s) as [m|]; cbn in *; [|done]. f_equal.
    destruct Hm as [-> | (w0 & n0 & ->)].
    + rewrite bool_decide_false by (by rewrite lookup_empty).
      rewrite bool_decide_false; [done|]. intros Hne. by apply Hne.
    + rewrite !bool_decide_true; [done| |].
      * intros Heq. apply (f_equal (fun m => m !! "players_count")) in Heq.
        unfold cached_meta in Heq. by rewrite lookup_insert_eq, lookup_empty in Heq.
      * unfold cached_meta. by rewrite lookup_insert_ne, lookup_insert_ne, lookup_insert_eq.
Qed.

Lemma execute_dml_autobegin w stmt d k :
  execute_dml w stmt {| disk := d; txn := None; clock := k |}
  = execute_dml w stmt {| disk := d; txn := Some d; clock := k |}.
Proof. reflexivity. Qed.

Lemma mark_cached_in_txn w n d v k c' :
  mark_cached w n {| disk := d; txn := Some v; clock := k |} = (Ok (), c') ->
  exists m,
    meta v = Some m /\ disk c' = d /\
    txn c' = Some {| meta := Some (cached_meta w n m); players := players v |}.
Proof.
  destruct v as [[m|] pl].
  - pose proof (mark_cached_cases w n d m pl k) as Hc. intros Hrun. rewrite Hrun in Hc.
    destruct Hc as (Hd & _ & _ & Ht). by exists m.
  - unfold mark_cached. rewrite bind_unfold, execute_dml_in_txn.
    case_fault w; [done|]. done.
Qed.

Lemma mark_cached_autobegin w n d k :
  mark_cached w n {| disk := d; txn := None; clock := k |}
  = mark_cached w n {| disk := d; txn := Some d; clock := k |}.
Proof. reflexivity. Qed.

Lemma mark_cached_disk_txn w n d v k :
  disk (mark_cached w n {| disk := d; txn := Some v; clock := k |}).2 = d.
Proof.
  destruct v as [[m|] pl].
  - pose proof (mark_cached_cases w n d m pl k) as Hc.
    destruct (mark_cached w n _) as [[?|?] c0]; cbn [snd]; [by destruct Hc|done].
  - unfold mark_cached. rewrite bind_unfold, execute_dml_in_txn. by case_fault w.
Qed.

Lemma mark_cached_disk w n c : disk (mark_cached w n c).2 = disk c.
Proof.
  destruct c as [d [v|] k]; cbn [disk].
  - apply mark_cached_disk_txn.
  - rewrite mark_cached_autobegin. apply mark_cached_disk_txn.
Qed.

(** X7. [mark_cached] commits nothing by itself: the committed store is the
    same after it, whether it fails or not. When it succeeds a transaction is
    open in which [meta] has the three keys set, its other keys and the
    [players] table being as the connection saw them before. *)
Theorem mark_cached_commits_nothing (w : world) (n : nat) (c : conn) :
  disk (mark_cached w n c).2 = disk c /\
  (forall c',
     mark_cached w n c = (Ok (), c') ->
     exists m v',
       meta (view c) = Some m /\ txn c' = Some v' /\
       meta v' = Some (cached_meta w n m) /\ players v' = players (view c) /\
       (forall k, k <> "players_cached" -> k <> "players_cached_at" ->
                  k <> "players_count" -> cached_meta w n m !! k = m !! k)).
Proof.
  split; [apply mark_cached_disk|].
  intros c' Hrun.
  assert (Hv : mark_cached w n {| disk := disk c; txn := Some (view c); clock := clock c |}
               = (Ok (), c')).
  { rewrite <- Hrun. destruct c as [d [v|] k]; [done|].
    symmetry. apply mark_cached_autobegin. }
  apply mark_cached_in_txn in Hv as (m & Hm & _ & Ht).
  exists m. eexists. split; [done|]. split; [done|]. split; [done|]. split; [done|].
  intros k ? ? ?. unfold cached_meta. by rewrite !lookup_insert_ne.
Qed.




Lemma upsert_lookup_other v t i r :
  t !! i = Some r -> pk r <> pk v -> upsert v t !! i = Some r.
Proof.
  revert i. induction t as [|old t IH]; intros i Hi Hne; [done|]. cbn [upsert].
  destruct i as [|i]; cbn in Hi.
  - injection Hi as ->. unfold conflicts. rewrite (bool_decide_false (pk r = pk v)) by done.
    by rewrite andb_false_r.
  - destruct (conflicts old v); cbn; [done|]. by apply IH.
Qed.

Lemma upsert_all_lookup_other vs t i r :
  t !! i = Some r -> pk r ∉ map pk vs -> upsert_all t vs !! i = Some r.
Proof.
  revert t. induction vs as [|v vs IH]; intros t Hi Hn; [done|].
  change (upsert_all t (v :: vs)) with (upsert_all (upsert v t) vs).
  cbn [map] in Hn. apply not_elem_of_cons in Hn as [Hne Hn].
  apply IH; [|done]. by apply upsert_lookup_other.
Qed.

(** X9. A run leaves alone every row whose key is not derived from an entry
    of the fetched mapping: such a row is at the same place after the run,
    with every column as it was. *)
Theorem run_leaves_other_rows (w : world) (s : store)
    (entries : list (string * json)) (i : nat) (r : row) :
  upstream w = Ok (JObj entries) ->
  players_rows s !! i = Some r -> ~ written entries r ->
  players_rows (run_loader w s).2 !! i = Some r.
Proof.
  intros Hup Hi Hw. destruct (run_loader w s) as [[n|e] s'] eqn:Hrun; cbn [snd].
  - destruct (run_loader_ok _ _ _ _ Hrun) as (entries' & stored & Hup' & _ & _ & Hst & ->).
    rewrite Hup in Hup'. injection Hup' as <-. rewrite players_rows_some.
    apply upsert_all_lookup_other; [done|]. by rewrite (rows_of_keys _ _ _ Hst).
  - apply run_loader_raise in Hrun as [_ ->]. done.
Qed.

Lemma new_row_length vals :
  length vals = length players_schema -> length (new_row vals) = 19%nat.
Proof. intros Hl. unfold new_row. rewrite length_zip_with. rewrite Hl. reflexivity. Qed.

Lemma upsert_twice v t :
  good v -> pk_unique t = true -> upsert v (upsert v t) = upsert v t.
Proof.
  intros Hg Hu.
  rewrite (upsert_unique v (upsert v t)) by (done || by apply upsert_pk_unique).
  rewrite bool_decide_true by (apply list_elem_of_fmap_2; by apply upsert_has).
  rewrite <- (map_id (upsert v t)) at 2. apply map_ext_in. intros r Hr.
  apply list_elem_of_In in Hr.
  destruct (upsert_elem_unique _ _ _ Hg Hu Hr) as [-> | [_ Hne]]; unfold replaced.
  - by rewrite bool_decide_true.
  - by rewrite bool_decide_false.
Qed.

(** X17. The INSERT with its ON CONFLICT clause is idempotent: on a table
    with unique keys, running it a second time with the same values changes
    nothing. *)
Theorem insert_player_idempotent (vals : list sqlval) (s s1 : store) :
  pk_unique (players_rows s) = true ->
  is_null (pk (new_row vals)) = false ->
  insert_player vals s = Ok s1 ->
  insert_player vals s1 = Ok s1.
Proof.
  intros Hu Hn. unfold insert_player.
  destruct (players s) as [t|] eqn:Et; [|done].
  destruct (length vals =? length players_schema)%nat eqn:El; cbn [negb]; [|done].
  destruct (violates_not_null (new_row vals)) eqn:Ev; [done|].
  intros [= <-]. cbn [players meta]. do 3 f_equal. apply upsert_twice.
  - split; [|done]. apply new_row_length. by apply Nat.eqb_eq.
  - unfold players_rows in Hu. by rewrite Et in Hu.
Qed.

Lemma row_of_well_formed now e v : row_of now e v -> well_formed_row v.
Proof.
  intros (t & Hp & Hs).
  destruct (stored_row_columns _ _ _ _ Hp Hs) as (Hl & Hpk & Hd & Hat & _).
  split; [done|]. split; [by eexists|]. split; [by eexists|].
  exists now. split; [done|].
  destruct Hs as (vals & Hb & _). unfold prepare_row in Hp.
  destruct e as [key q]. cbn [fst snd] in Hp. destruct q as [| | | | | |p]; try done.
  destruct (full_name_of _ _ _); cbn [rbind] in Hp; [|done]. injection Hp as <-.
  rmap_inv Hb.
  match goal with
  | Hx : bind_param (JInt now) = Ok _ |- _ => cbn in Hx; unfold int64
  end.
  by destruct (_ && _).
Qed.

(** X18. Every store the loader maintains satisfies the schema: no two rows
    of [players] share a [player_id], and every row has nineteen values with
    a text [player_id], a text [data_json] and a 64-bit integer
    [updated_at]. *)
Theorem reachable_rows_well_formed (s : store) :
  reachable s ->
  pk_unique (players_rows s) = true /\ Forall well_formed_row (players_rows s).
Proof.
  induction 1 as [|w s r s' _ [IHu IHf] Hrun]; [by split|].
  destruct r as [n|e].
  - destruct (run_loader_ok _ _ _ _ Hrun) as (entries & stored & _ & _ & _ & Hst & ->).
    rewrite players_rows_some.
    destruct (upsert_all_spec stored (players_rows s)) as (Hu' & Hin & _);
      [by eapply rows_of_good|done|].
    split; [done|]. apply Forall_forall. intros r Hr.
    destruct (Hin r Hr) as [Hl | [_ Hold]].
    + apply last_with_Some in Hl as [Hl _].
      destruct (rows_of_elem _ _ _ _ Hst Hl) as (e & _ & He).
      by eapply row_of_well_formed.
    + rewrite Forall_forall in IHf. by apply IHf.
  - apply run_loader_raise in Hrun as [_ ->]. done.
Qed.

(** X13. Each column that copies an upstream field holds the field of its
    own name: the value stored in the column is the value bound for
    [p.get] of that name, as a column of the declared type keeps it. *)
Theorem copied_columns_hold_their_fields (now : Z) (e : string * json) (v : row)
    (c : string) :
  row_of now e v -> c ∈ copied_columns ->
  exists x,
    bind_param (field_value e c) = Ok x /\
    col c v = apply_affinity (column_affinity c) x.
Proof.
  intros (t & Hp & vals & Hb & _ & -> & _) Hc.
  unfold prepare_row in Hp. unfold field_value.
  destruct e as [key q]. cbn [fst snd] in *. destruct q as [| | | | | |p]; try done.
  destruct (full_name_of _ _ _); cbn [rbind] in Hp; [|done]. injection Hp as <-.
  rmap_inv Hb. unfold copied_columns in Hc.
  repeat (apply elem_of_cons in Hc as [-> | Hc];
          [eexists; split; [eassumption|reflexivity]|]).
  by apply elem_of_nil in Hc.
Qed.

(** X16. The two serialised columns: [data_json] is the compact dump of the
    whole record, and [fantasy_positions_json] is the dump of the
    [fantasy_positions] field whenever that field is not [None], an empty list
    included; only a missing or null field gives NULL. *)
Theorem serialised_columns (now : Z) (e : string * json) (v : row) :
  row_of now e v ->
  col "data_json" v = SqlText (json_dumps "," ":" e.2) /\
  col "fantasy_positions_json" v
  = match field_value e "fantasy_positions" with
    | JNull => SqlNull
    | _ => SqlText (json_dumps ", " ": " (field_value e "fantasy_positions"))
    end.
Proof.
  intros (t & Hp & Hs).
  destruct (stored_row_columns _ _ _ _ Hp Hs) as (_ & _ & Hd & _). split; [done|].
  destruct Hs as (vals & Hb & _ & -> & _).
  unfold prepare_row in Hp. unfold field_value.
  destruct e as [key q]. cbn [fst snd] in *. destruct q as [| | | | | |p]; try done.
  destruct (full_name_of _ _ _); cbn [rbind] in Hp; [|done]. injection Hp as <-.
  rmap_inv Hb.
  destruct (dict_get p "fantasy_positions");
    repeat match goal with
    | Hx : bind_param JNull = Ok _ |- _ => apply bind_param_null in Hx as ->
    | Hx : bind_param (JStr _) = Ok _ |- _ => apply bind_param_str in Hx as ->
    end; reflexivity.
Qed.

Lemma full_name_of_returns a b fb :
  name_ok a && name_ok b = true ->
  exists full, full_name_of a b fb = Ok full /\ (full = fb \/ is_str full = true).
Proof.
  intros [Ha Hb]%andb_true_iff. unfold full_name_of, py_or. cbn [List.filter].
  unfold name_ok in Ha, Hb.
  destruct (truthy a) eqn:Ta, (truthy b) eqn:Tb; cbn [negb] in Ha, Hb;
    rewrite ?orb_false_r, ?orb_true_r in Ha, Hb;
    destruct a, b; cbn [join_space rbind is_str] in *; try done;
    match goal with
    | |- context [truthy ?x] => destruct (truthy x)
    end; eauto.
Qed.

(** X15. Row preparation raises [AttributeError] for an entry that is not an
    object and for a feed that is not a mapping, and [TypeError] when
    [first_name] or [last_name] is a truthy value that is not a string; in
    every other case it yields a tuple of nineteen values. *)
Theorem row_preparation_errors (now : Z) (key : string) :
  (forall q, (forall p, q <> JObj p) -> prepare_row now (key, q) = Raise AttributeError) /\
  (forall p,
     name_ok (dict_get p "first_name") && name_ok (dict_get p "last_name") = false ->
     prepare_row now (key, JObj p) = Raise TypeError) /\
  (forall p,
     name_ok (dict_get p "first_name") && name_ok (dict_get p "last_name") = true ->
     exists tuple, prepare_row now (key, JObj p) = Ok tuple /\ length tuple = 19%nat) /\
  (forall obj, (forall l, obj <> JObj l) -> prepare_rows now obj = Raise AttributeError).
Proof.
  split; [|split; [|split]].
  - intros q Hq. destruct q as [| | | | | |p]; try done. by destruct (Hq p).
  - intros p Hn. unfold prepare_row. cbn [fst snd].
    by rewrite (full_name_of_raises _ _ _ Hn).
  - intros p Hn. unfold prepare_row. cbn [fst snd].
    destruct (full_name_of_returns _ _ (dict_get p "full_name") Hn) as (full & -> & _).
    cbn [rbind]. by eexists.
  - intros obj Ho. destruct obj as [| | | | | |l]; try done. by destruct (Ho l).
Qed.

Lemma scalar_binds v : scalar v = true <-> exists x, bind_param v = Ok x.
Proof.
  destruct v; cbn; unfold int64; try (split; [by eexists|done]).
  - destruct (_ && _); split; try done; [by eexists|by intros [? ?]].
  - split; [done|by intros [? ?]].
  - split; [done|by intros [? ?]].
Qed.

Lemma rows_of_entry now entries stored e :
  Forall2 (row_of now) entries stored -> e ∈ entries -> exists v, row_of now e v.
Proof.
  induction 1 as [|e' v' es vs He Hes IH]; [by intros ?%elem_of_nil|].
  intros [->|Hin]%elem_of_cons; [by exists v'|by apply IH].
Qed.

(** A stored row had every copied field bound. *)
Lemma copied_fields_bound now e v c :
  row_of now e v -> c ∈ copied_columns -> scalar (field_value e c) = true.
Proof.
  intros (t & Hp & vals & Hb & _) Hc.
  unfold prepare_row in Hp. unfold field_value.
  destruct e as [key q]. cbn [fst snd] in *. destruct q as [| | | | | |p]; try done.
  destruct (full_name_of _ _ _); cbn [rbind] in Hp; [|done]. injection Hp as <-.
  rmap_inv Hb. unfold copied_columns in Hc.
  repeat (apply elem_of_cons in Hc as [-> | Hc];
          [apply scalar_binds; eexists; eassumption|]).
  by apply elem_of_nil in Hc.
Qed.

(** X14. One field is enough to abort a load: when some entry has, in a
    column that copies an upstream field, a list, an object or an integer
    that does not fit 64 bits, the run raises and the rows of both tables are
    what they were. *)
Theorem unbindable_field_aborts (w : world) (s : store)
    (entries : list (string * json)) (e : string * json) (c : string) :
  upstream w = Ok (JObj entries) -> e ∈ entries -> c ∈ copied_columns ->
  scalar (field_value e c) = false ->
  exists e' s', run_loader w s = (Raise e', s') /\ same_rows s s'.
Proof.
  intros Hup He Hc Hs. destruct (run_loader w s) as [[n|e'] s'] eqn:Hrun.
  - destruct (run_loader_ok _ _ _ _ Hrun) as (entries' & stored & Hup' & _ & _ & Hst & _).
    rewrite Hup in Hup'. injection Hup' as <-.
    destruct (rows_of_entry _ _ _ _ Hst He) as (v & Hv).
    pose proof (copied_fields_bound _ _ _ _ Hv Hc). congruence.
  - exists e', s'. split; [done|]. by eapply run_loader_raise.
Qed.

Lemma executemany_runs w rows stored :
  Forall2 stores rows stored ->
  forall d m pl k,
    quiet w k (k + length rows) ->
    executemany w rows
      {| disk := d; txn := Some {| meta := m; players := Some pl |}; clock := k |}
    = (Ok (), {| disk := d;
                 txn := Some {| meta := m; players := Some (upsert_all pl stored) |};
                 clock := k + length rows |}).
Proof.
  induction 1 as [|r v rows stored (vals & Hb & Hl & -> & Hv) _ IH]; intros d m pl k Hq.
  - cbn. do 2 f_equal. lia.
  - cbn [executemany length]. rewrite bind_unfold. unfold lift at 1. rewrite Hb.
    rewrite bind_unfold, execute_dml_in_txn. rewrite Hq by (cbn [length]; lia).
    unfold insert_player. cbn [players meta].
    rewrite (proj2 (Nat.eqb_eq _ _) Hl). cbn [negb]. rewrite Hv.
    rewrite IH by (intros j Hj; apply Hq; cbn [length]; lia).
    do 2 f_equal. cbn [length]. lia.
Qed.

Lemma mark_cached_runs w n d m pl k :
  quiet w k (k + 3) ->
  mark_cached w n {| disk := d; txn := Some {| meta := Some m; players := pl |}; clock := k |}
  = (Ok (), {| disk := d;
               txn := Some {| meta := Some (cached_meta w n m); players := pl |};
               clock := k + 3 |}).
Proof.
  intros Hq. unfold mark_cached.
  repeat (rewrite bind_unfold, execute_dml_in_txn; rewrite Hq by lia;
          cbn [meta_upsert meta players]).
  rewrite execute_dml_in_txn. rewrite Hq by lia. cbn [meta_upsert meta players].
  do 2 f_equal. lia.
Qed.

Lemma rows_of_prepare now entries stored :
  Forall2 (row_of now) entries stored ->
  exists rows, rmap (prepare_row now) entries = Ok rows /\ Forall2 stores rows stored.
Proof.
  induction 1 as [|e v es vs (t & Hp & Hs) _ (rows & Hr & Hf)].
  - exists []. split; [done|constructor].
  - exists (t :: rows). split; [|by constructor]. cbn [rmap]. by rewrite Hp, Hr.
Qed.

(** A run in which nothing fails returns, with the rows upserted and the
    meta keys set. *)
Lemma run_loader_complete w s entries stored :
  upstream w = Ok (JObj entries) ->
  Forall2 (row_of (now w)) entries stored ->
  quiet w 0 (length entries + 13) ->
  run_loader w s
  = (Ok (length entries),
     {| meta := Some (cached_meta w (length entries) (meta_rows s));
        players := Some (upsert_all (players_rows s) stored) |}).
Proof.
  intros Hup Hst Hq.
  destruct (rows_of_prepare _ _ _ Hst) as (rows & Hr & Hrows).
  assert (Hlen : length rows = length entries).
  { rewrite (Forall2_length _ _ _ Hrows). symmetry. by eapply Forall2_length. }
  unfold run_loader, main, connect, main_body.
  rewrite bind_unfold, (ensure_db_runs w s 0) by (intros j Hj; apply Hq; lia).
  rewrite bind_unfold. unfold fetch_players, lift at 1. rewrite Hup.
  rewrite bind_unfold. unfold lift at 1, prepare_rows. cbn [items rbind]. rewrite Hr.
  rewrite bind_unfold. unfold begin at 1. cbn [clock txn disk Nat.add].
  rewrite Hq by lia. unfold ensured at 2.
  rewrite bind_unfold, (executemany_runs w rows stored Hrows)
    by (intros j Hj; apply Hq; lia).
  rewrite bind_unfold, mark_cached_runs by (intros j Hj; apply Hq; lia).
  rewrite bind_unfold. unfold commit at 1. cbn [clock txn disk].
  rewrite Hq by lia. cbn. by rewrite Hlen.
Qed.

(** X11. An empty mapping loads: the run returns 0, [players] keeps exactly
    the rows it had, and [meta] is marked as cached with a count of 0. *)
Theorem empty_feed_marks_cached (w : world) (s : store) :
  upstream w = Ok (JObj []) -> quiet w 0 13 ->
  run_loader w s
  = (Ok 0%nat,
     {| meta := Some (<["players_count" := "0"]>
                        (<["players_cached_at" := ctime w]>
                           (<["players_cached" := "1"]> (meta_rows s))));
        players := Some (players_rows s) |}).
Proof.
  intros Hup Hq. by rewrite (run_loader_complete w s [] [] Hup) by (done || constructor).
Qed.

(** X12. A failure before the transaction is re-raised as it is: when the
    fetch raises, or row preparation does, and the schema statements went
    through, the run raises that very exception, and the store is the old one
    with both tables created. *)
Theorem early_failure_reraised (w : world) (s : store) (e : exn) :
  quiet w 0 8 ->
  (upstream w = Raise e \/
   exists obj, upstream w = Ok obj /\ prepare_rows (now w) obj = Raise e) ->
  run_loader w s = (Raise e, ensured s).
Proof.
  intros Hq Hcase. unfold run_loader, main, connect, main_body.
  rewrite bind_unfold, (ensure_db_runs w s 0) by done.
  rewrite bind_unfold. unfold fetch_players, lift at 1.
  destruct Hcase as [-> | (obj & -> & Hp)]; [done|].
  rewrite bind_unfold. unfold lift at 1. by rewrite Hp.
Qed.

Lemma entry_ok_row_of now e :
  entry_ok e = true -> int64 now = true -> exists v, row_of now e v.
Proof.
  destruct e as [key q]. unfold entry_ok. cbn [snd].
  destruct q as [| | | | | |p]; try done. intros Hok Hnow.
  apply andb_true_iff in Hok as [Hok Hall]. apply andb_true_iff in Hok as [Hok Hfb].
  apply andb_true_iff in Hfb as [Hfb _]. apply andb_true_iff in Hok as [_ Hn].
  destruct (full_name_of_returns _ _ (dict_get p "full_name") Hn) as (full & Hfull & Hcase).
  assert (Hsf : exists x, bind_param full = Ok x).
  { apply scalar_binds. destruct Hcase as [->|Hs]; [done|by destruct full]. }
  destruct Hsf as (xf & Hxf).
  assert (Hpos : exists xp,
    bind_param match dict_get p "fantasy_positions" with
               | JNull => JNull
               | _ => JStr (json_dumps ", " ": " (dict_get p "fantasy_positions"))
               end = Ok xp) by (destruct (dict_get p "fantasy_positions"); by eexists).
  destruct Hpos as (xp & Hxp).
  unfold copied_columns in Hall. cbn [forallb] in Hall.
  repeat (apply andb_true_iff in Hall as [[(? & ?)%scalar_binds _]%andb_true_iff Hall]).
  eexists. eexists. split.
  { unfold prepare_row. cbn [fst snd]. rewrite Hfull. cbn [rbind]. reflexivity. }
  eexists. split.
  { cbn [rmap].
    repeat match goal with
    | Hx : bind_param ?v = Ok _ |- context [bind_param ?v] => rewrite Hx
    end.
    cbn [bind_param rbind]. unfold int64 in Hnow. rewrite Hnow. reflexivity. }
  split; [reflexivity|]. split; [reflexivity|]. reflexivity.
Qed.

Lemma entries_ok_rows_of now entries :
  forallb entry_ok entries = true -> int64 now = true ->
  exists stored, Forall2 (row_of now) entries stored.
Proof.
  intros Hall Hnow. induction entries as [|e es IH]; [by exists []|].
  cbn [forallb] in Hall. apply andb_true_iff in Hall as [He Hes].
  destruct (entry_ok_row_of now e He Hnow) as (v & Hv).
  destruct (IH Hes) as (vs & Hvs). exists (v :: vs). by constructor.
Qed.

(** X10. A feed the loader can take: when every entry is an object whose
    [first_name] and [last_name] are strings or count as false, whose copied
    fields and [full_name] are scalars that SQLite binds, whose outer key,
    [player_id] and string fields are ASCII, the fetch time fits 64 bits and
    no statement fails in the storage engine, the run returns the number of
    entries, with every entry upserted in order and the meta keys set. *)
Theorem well_formed_feed_loads (w : world) (s : store) (entries : list (string * json)) :
  upstream w = Ok (JObj entries) ->
  forallb entry_ok entries = true ->
  int64 (now w) = true ->
  quiet w 0 (length entries + 13) ->
  exists stored,
    Forall2 (row_of (now w)) entries stored /\
    run_loader w s
    = (Ok (length entries),
       {| meta := Some (cached_meta w (length entries) (meta_rows s));
          players := Some (upsert_all (players_rows s) stored) |}).
Proof.
  intros Hup Hok Hnow Hq.
  destruct (entries_ok_rows_of _ _ Hok Hnow) as (stored & Hst).
  exists stored. split; [done|]. by apply run_loader_complete.
Qed.

End CacheFacts.

(** * Closed instances: counterexamples, witnesses and the spec's examples *)

Section Closed.
Import Py Sleeper Cache SampleData.
#[local] Existing Instance Sample.runtime.

(** C1, counterexample. A record with a first name, no last name and an
    upstream [full_name]: the spec's words give the upstream ["X Y"], the
    loader stores ["Tom"]. *)
Lemma full_name_counterexample :
  spec_full_name only_first_name = Ok (JStr "X Y") /\
  row_full_name 0 ("9", JObj only_first_name) = Ok (JStr "Tom") /\
  row_full_name 0 ("9", JObj only_first_name) <> spec_full_name only_first_name.
Proof. split; [reflexivity|]. split; [reflexivity|]. discriminate. Qed.

(** The spec's two examples for [full_name]. *)
Example full_name_tom_brady :
  row_full_name 0 ("1", JObj tom_brady) = Ok (JStr "Tom Brady").
Proof. reflexivity. Qed.

Example full_name_fallback :
  row_full_name 0 ("2", JObj only_full_name) = Ok (JStr "X Y").
Proof. reflexivity. Qed.

(** An empty first name is left out of the join as well. *)
Example full_name_empty_first :
  row_full_name 0 ("3", JObj [("first_name", JStr ""); ("last_name", JStr "Brady");
                              ("full_name", JStr "X Y")]) = Ok (JStr "Brady").
Proof. reflexivity. Qed.

(** A first name that is a number cannot be joined: the entry gives no
    row, whatever its [full_name] field says. *)
Example full_name_number_raises :
  row_full_name 0 ("4", JObj [("first_name", JInt 7); ("full_name", JStr "X Y")])
  = Raise TypeError.
Proof. reflexivity. Qed.

(** A storage failure in the middle of the transaction (statement 10 is the
    INSERT of the first row): the run raises and the rows of the earlier load
    are all the store holds. *)
Example failed_run_changes_nothing :
  run_loader (world_of (JObj new_feed) 200 (fun k => Nat.eqb k 9)) after_old
  = (Raise OperationalError, after_old).
Proof. vm_compute. reflexivity. Qed.

(** A binding failure on the second row, after the first one was inserted:
    the run raises and nothing of it is kept. *)
Example bind_failure_rolls_back :
  run_loader (world_of (JObj [("1", JObj tom_brady);
                              ("2", JObj [("team", JArr [JStr "NE"])])]) 200 no_fault)
             after_old
  = (Raise ProgrammingError, after_old).
Proof. vm_compute. reflexivity. Qed.

(** A first name that is a number cannot be joined: row preparation raises
    before the transaction starts. *)
Example prepare_failure_changes_nothing :
  run_loader (world_of (JObj [("1", JObj tom_brady);
                              ("2", JObj [("first_name", JInt 7)])]) 200 no_fault)
             after_old
  = (Raise TypeError, after_old).
Proof. vm_compute. reflexivity. Qed.

(** C3, counterexample. Player 999 was loaded at time 100 and has left the
    feed; the new feed is then loaded at 200 and again at 300. All three runs
    succeed, and the row of player 999 still says 100 after the last one. *)
Lemma stale_row_counterexample :
  run_loader (world_of (JObj old_feed) 100 no_fault) new_file = (Ok 1%nat, after_old) /\
  run_loader (world_of (JObj new_feed) 200 no_fault) after_old = (Ok 1%nat, after_new) /\
  run_loader (world_of (JObj new_feed) 300 no_fault) after_new = (Ok 1%nat, after_new_again) /\
  ~ spec_idempotent 300 (players_rows after_new) (players_rows after_new_again).
Proof.
  split; [vm_compute; reflexivity|]. split; [vm_compute; reflexivity|].
  split; [vm_compute; reflexivity|].
  intros [_ Hrows]. vm_compute in Hrows.
  inversion Hrows as [|r1 r2 t1 t2 [_ Hat] _]; subst. discriminate Hat.
Qed.

(** C3, witness: the same three runs. *)
Lemma rerun_rewrites_in_place_witness :
  length (players_rows after_new_again) = length (players_rows after_new) /\
  Forall2 (fun r1 r2 =>
             (forall c, c <> "updated_at" -> col c r2 = col c r1) /\
             (written new_feed r1 -> col "updated_at" r2 = SqlInt 300) /\
             (~ written new_feed r1 -> col "updated_at" r2 = col "updated_at" r1))
          (players_rows after_new) (players_rows after_new_again).
Proof.
  apply (rerun_rewrites_in_place
           (world_of (JObj new_feed) 200 no_fault) (world_of (JObj new_feed) 300 no_fault)
           after_old after_new after_new_again 1 1 new_feed);
    vm_compute; reflexivity.
Defined.

(** C4, witness. *)
Lemma proxy_upstream_paths_witness :
  dispatch "/sleeper/user/42" = Some (sleeper_get "/user/42" None) /\
  dispatch "/sleeper/42/leagues/nfl/2024" = Some (sleeper_get "/user/42/leagues/nfl/2024" None) /\
  dispatch "/sleeper/league/123" = Some (sleeper_get "/league/123" None) /\
  dispatch "/sleeper/league/123/rosters" = Some (sleeper_get "/league/123/rosters" None).
Proof. apply (proxy_upstream_paths "42" "nfl" "2024" "123"); reflexivity. Defined.

(** C5, witness: the spec's 404 example on the rosters route. *)
Lemma upstream_status_relayed_witness :
  exists url,
    (400 <= 404 ->
       run (sleeper_get "/league/123/rosters" None) [Response 404 "not found"]
         = ([url], Some (Raise (HTTPException 404 "not found")))
       /\ respond (Raise (HTTPException 404 "not found")) = ReplyError 404 "not found") /\
    (404 < 400 ->
       forall v, json_loads "not found" = Some v ->
       run (sleeper_get "/league/123/rosters" None) [Response 404 "not found"]
         = ([url], Some (Ok v))
       /\ respond (Ok v) = ReplyJson 200 v).
Proof.
  apply (upstream_status_relayed "/sleeper/league/123/rosters" _ 404 "not found" []);
    [reflexivity|discriminate].
Defined.

(** A response below 400 on the user route. *)
Example upstream_success_relayed :
  option_map (fun h => run h [Response 200 "{}"]) (dispatch "/sleeper/user/42")
  = Some (["https://api.sleeper.app/v1/user/42"], Some (Ok (JObj []))).
Proof. reflexivity. Qed.

(** C6, witness: a refused connection on the league route. *)
Lemma transport_failure_is_502_witness :
  exists url,
    run (sleeper_get "/league/123" None) [Unreachable "connection refused"]
      = ([url], Some (Raise (HTTPException 502 "Could not reach Sleeper: connection refused")))
    /\ respond (Raise (HTTPException 502 "Could not reach Sleeper: connection refused"))
      = ReplyError 502 "Could not reach Sleeper: connection refused".
Proof.
  apply (transport_failure_is_502 "/sleeper/league/123" _ "connection refused" []);
    [reflexivity|discriminate].
Defined.

(** C7, witness: an entry with no field at all, loaded into a new file. *)
Lemma players_rows_never_null_witness :
  Forall never_null
    (players_rows (run_loader (world_of (JObj bare_feed) 100 no_fault) new_file).2) /\
  (forall e v c,
     row_of 100 e v -> c ∈ optional_columns ->
     Forall (fun f => field_value e f = JNull) (source_fields c) ->
     col c v = SqlNull).
Proof.
  apply (players_rows_never_null (world_of (JObj bare_feed) 100 no_fault) new_file 1);
    [constructor|vm_compute; reflexivity].
Defined.

(** The row stored for that entry: the outer key, the payload, the fetch time,
    and NULL everywhere else. *)
Example bare_entry_row :
  players_rows (run_loader (world_of (JObj bare_feed) 100 no_fault) new_file).2
  = [ [SqlText "7"; SqlNull; SqlNull; SqlNull; SqlNull; SqlNull; SqlNull; SqlNull; SqlNull;
       SqlNull; SqlNull; SqlNull; SqlNull; SqlNull; SqlNull; SqlNull; SqlNull;
       SqlText "{}"; SqlInt 100] ].
Proof. vm_compute. reflexivity. Qed.

(** C8, witness: the new feed loaded once more over [after_new], by a clock
    that reads 150; the row written at 200 now says 150. *)
Lemma updated_at_is_fetch_time_witness :
  Forall (fun e => SqlText (entry_key e)
                   ∈ map pk (players_rows
                               (run_loader (world_of (JObj new_feed) 150 no_fault) after_new).2))
         new_feed /\
  Forall (fun r => written new_feed r -> col "updated_at" r = SqlInt 150)
         (players_rows (run_loader (world_of (JObj new_feed) 150 no_fault) after_new).2).
Proof.
  apply (updated_at_is_fetch_time (world_of (JObj new_feed) 150 no_fault) after_new 1);
    vm_compute; reflexivity.
Defined.

(** C9, witness: two entries deriving the key ["x"]; the second one stays. *)
Lemma derived_key_last_write_wins_witness :
  exists p tuple v,
    JObj [("player_id", JStr "x"); ("team", JStr "TB")] = JObj p /\
    entry_key ("b", JObj [("player_id", JStr "x"); ("team", JStr "TB")])
      = py_str (if truthy (dict_get p "player_id") then dict_get p "player_id" else JStr "b") /\
    prepare_row 100 ("b", JObj [("player_id", JStr "x"); ("team", JStr "TB")]) = Ok tuple /\
    tuple !! 0%nat
      = Some (JStr (entry_key ("b", JObj [("player_id", JStr "x"); ("team", JStr "TB")]))) /\
    stores tuple v /\
    List.filter
      (fun r => bool_decide
                  (pk r = SqlText (entry_key ("b", JObj [("player_id", JStr "x");
                                                         ("team", JStr "TB")]))))
      (players_rows (run_loader (world_of (JObj twin_feed) 100 no_fault) new_file).2) = [v].
Proof.
  apply (derived_key_last_write_wins (world_of (JObj twin_feed) 100 no_fault) new_file 2 _
           [("a", JObj [("player_id", JStr "x"); ("team", JStr "NE")])]
           []
           ("b", JObj [("player_id", JStr "x"); ("team", JStr "TB")]));
    [reflexivity|vm_compute; reflexivity|reflexivity|apply not_elem_of_nil].
Defined.

Example twin_entries_one_row :
  players_rows (run_loader (world_of (JObj twin_feed) 100 no_fault) new_file).2
  = [ [SqlText "x"; SqlNull; SqlNull; SqlNull; SqlNull; SqlNull; SqlNull; SqlText "TB";
       SqlNull; SqlNull; SqlNull; SqlNull; SqlNull; SqlNull; SqlNull; SqlNull; SqlNull;
       SqlText (Sample.dumps "," ":" (JObj [("player_id", JStr "x"); ("team", JStr "TB")]));
       SqlInt 100] ].
Proof. vm_compute. reflexivity. Qed.


(** ** Further properties at concrete inputs *)

Import FurtherSamples.

(** X1, witness: the rosters route. *)
Lemma dispatch_only_known_shapes_witness :
  ("/sleeper/league/123/rosters" = "/" /\ get_league_rosters "123" = root) \/
  (exists u, valid_param u = true /\
     "/sleeper/league/123/rosters" = "/sleeper/user/" ++ u /\
     get_league_rosters "123" = get_user u) \/
  (exists u sp se,
     valid_param u = true /\ valid_param sp = true /\ valid_param se = true /\
     "/sleeper/league/123/rosters" = "/sleeper/" ++ u ++ "/leagues/" ++ sp ++ "/" ++ se /\
     get_league_rosters "123" = get_user_leagues u se sp) \/
  (exists l, valid_param l = true /\
     "/sleeper/league/123/rosters" = "/sleeper/league/" ++ l /\
     get_league_rosters "123" = get_league l) \/
  (exists l, valid_param l = true /\
     "/sleeper/league/123/rosters" = "/sleeper/league/" ++ l ++ "/rosters" /\
     get_league_rosters "123" = get_league_rosters l).
Proof.
  apply (dispatch_only_known_shapes "/sleeper/league/123/rosters" (get_league_rosters "123"));
    reflexivity.
Defined.

(** Paths that reach none of the five handlers: an empty parameter, a fifth
    segment, a prefix of the templates. *)
Example unrouted_paths :
  dispatch "/sleeper/user/" = None /\
  dispatch "/sleeper/league/123/rosters/1" = None /\
  dispatch "/sleeper" = None.
Proof. repeat split; reflexivity. Qed.

(** X2, witness: an HTML page with status 200 on the user route. *)
Lemma undecodable_body_is_server_error_witness :
  (run (get_user "42") [Response 200 "<html>"]).2 = Some (Raise JSONDecodeError) /\
  respond (Raise JSONDecodeError) = ReplyServerError.
Proof.
  apply (undecodable_body_is_server_error "/sleeper/user/42" (get_user "42") 200 "<html>" []);
    [reflexivity|discriminate|reflexivity|reflexivity].
Defined.

(** X3, witness: the league route. *)
Lemma at_most_one_plain_request_witness :
  (requests (get_league "123") [Response 200 "{}"] = [] \/
   exists upstream_path,
     requests (get_league "123") [Response 200 "{}"]
     = [ {| req_url := SLEEPER_BASE_URL ++ upstream_path;
            req_params := None; req_timeout := 10 |} ]) /\
  (exists r, (run (get_league "123") [Response 200 "{}"]).2 = Some r).
Proof.
  apply (at_most_one_plain_request "/sleeper/league/123" (get_league "123")
           (Response 200 "{}") []).
  reflexivity.
Defined.

(** X4, witness: a new file. *)
Lemma ensure_db_creates_once_witness :
  same_rows (disk (connect new_file))
            (disk (ensure_db (world_of JNull 0 no_fault) (connect new_file)).2) /\
  (forall c',
     ensure_db (world_of JNull 0 no_fault) (connect new_file) = (Ok (), c') ->
     disk c' = ensured (disk (connect new_file)) /\ txn c' = None /\
     is_Some (meta (disk c')) /\ is_Some (players (disk c')) /\
     forall w2, disk (ensure_db w2 c').2 = disk c').
Proof.
  apply (ensure_db_creates_once (world_of JNull 0 no_fault) (connect new_file)).
  reflexivity.
Defined.

(** A failure of the second CREATE TABLE: [meta] exists, [players] does not. *)
Example ensure_db_fails_half_way :
  (ensure_db (world_of JNull 0 (fun k => Nat.eqb k 3)) (connect new_file)).1
  = Raise OperationalError /\
  disk (ensure_db (world_of JNull 0 (fun k => Nat.eqb k 3)) (connect new_file)).2
  = {| meta := Some ∅; players := None |}.
Proof. split; vm_compute; reflexivity. Qed.

(** X5, witness: the store after the second load. *)
Lemma is_cached_after_successful_run_witness :
  (is_cached (world_of JNull 0 no_fault) (connect after_new)).1 = Ok true.
Proof.
  apply (is_cached_after_successful_run
           (world_of (JObj new_feed) 200 no_fault) (world_of JNull 0 no_fault)
           after_old after_new 1);
    [vm_compute; reflexivity|reflexivity].
Defined.

(** [is_cached] on a file that was never loaded raises: there is no [meta]. *)
Example is_cached_on_new_file :
  (is_cached (world_of JNull 0 no_fault) (connect new_file)).1 = Raise OperationalError.
Proof. reflexivity. Qed.

Lemma reachable_after_old : reachable after_old.
Proof.
  apply (reachable_run (world_of (JObj old_feed) 100 no_fault) new_file (Ok 1%nat));
    [constructor|vm_compute; reflexivity].
Qed.

(** X6, witness: the store after the first load. *)
Lemma meta_is_empty_or_marked_witness :
  (meta_rows after_old = ∅ \/
   exists (t : string) (n : nat),
     meta_rows after_old
     = <["players_count" := pretty n]>
         (<["players_cached_at" := t]> (<["players_cached" := "1"]> ∅))) /\
  (is_cached (world_of JNull 0 no_fault) (connect after_old)).1
  = match meta after_old with
    | None => Raise OperationalError
    | Some m => Ok (bool_decide (m <> ∅))
    end.
Proof.
  apply (meta_is_empty_or_marked (world_of JNull 0 no_fault) after_old);
    [apply reachable_after_old|reflexivity].
Defined.

(** X9, witness: the row of player 999 through a load of the new feed. *)
Lemma run_leaves_other_rows_witness :
  exists r,
    players_rows after_old !! 0%nat = Some r /\
    players_rows (run_loader (world_of (JObj new_feed) 200 no_fault) after_old).2 !! 0%nat
    = Some r.
Proof.
  eexists. split; [vm_compute; reflexivity|].
  apply (run_leaves_other_rows (world_of (JObj new_feed) 200 no_fault) after_old new_feed);
    [reflexivity|vm_compute; reflexivity|].
  intros Hw. unfold written, new_feed in Hw. cbn [map] in Hw.
  apply elem_of_cons in Hw as [Hw|Hw]; [vm_compute in Hw; discriminate Hw|].
  by apply elem_of_nil in Hw.
Defined.

(** X10, witness: the new feed over the store of the first load. *)
Lemma well_formed_feed_loads_witness :
  exists stored,
    Forall2 (row_of 200) new_feed stored /\
    run_loader (world_of (JObj new_feed) 200 no_fault) after_old
    = (Ok 1%nat,
       {| meta := Some (cached_meta (world_of (JObj new_feed) 200 no_fault) 1
                          (meta_rows after_old));
          players := Some (upsert_all (players_rows after_old) stored) |}).
Proof.
  apply (well_formed_feed_loads (world_of (JObj new_feed) 200 no_fault) after_old new_feed);
    [reflexivity|reflexivity|reflexivity|intros j _; reflexivity].
Defined.

(** X11, witness: an empty feed over the store of the first load. *)
Lemma empty_feed_marks_cached_witness :
  run_loader (world_of (JObj []) 200 no_fault) after_old
  = (Ok 0%nat,
     {| meta := Some (<["players_count" := "0"]>
                        (<["players_cached_at" := "Tue Nov  3 09:31:00 2026"]>
                           (<["players_cached" := "1"]> (meta_rows after_old))));
        players := Some (players_rows after_old) |}).
Proof.
  apply (empty_feed_marks_cached (world_of (JObj []) 200 no_fault) after_old);
    [reflexivity|intros j _; reflexivity].
Defined.

(** X12, witness: an upstream that answers 503, and a feed that is a list. *)
Lemma early_failure_reraised_witness :
  run_loader {| upstream := Raise (HTTPStatusError 503); now := 200;
                ctime := "Tue Nov  3 09:31:00 2026"; fault := no_fault |} after_old
  = (Raise (HTTPStatusError 503), ensured after_old).
Proof.
  apply (early_failure_reraised
           {| upstream := Raise (HTTPStatusError 503); now := 200;
              ctime := "Tue Nov  3 09:31:00 2026"; fault := no_fault |}
           after_old (HTTPStatusError 503));
    [intros j _; reflexivity|left; reflexivity].
Defined.

Example list_feed_is_refused :
  run_loader (world_of (JArr []) 200 no_fault) new_file
  = (Raise AttributeError, {| meta := Some ∅; players := Some [] |}).
Proof. vm_compute. reflexivity. Qed.

Lemma numbered_row_of : row_of 100 ("12", JObj numbered) numbered_row.
Proof.
  eexists. split; [reflexivity|]. eexists. split; [reflexivity|].
  split; [reflexivity|]. split; reflexivity.
Qed.

(** X13, witness: a jersey number sent as the text ["12"] is stored by the
    INTEGER column as the integer 12. *)
Lemma copied_columns_hold_their_fields_witness :
  exists x,
    bind_param (field_value ("12", JObj numbered) "number") = Ok x /\
    col "number" numbered_row = apply_affinity (column_affinity "number") x.
Proof.
  apply (copied_columns_hold_their_fields 100 ("12", JObj numbered) numbered_row "number");
    [apply numbered_row_of|].
  unfold copied_columns. do 9 apply list_elem_of_further. apply list_elem_of_here.
Defined.

Example number_text_becomes_integer :
  col "number" numbered_row = SqlInt 12 /\
  apply_affinity (column_affinity "number") (SqlText "12") = SqlInt 12 /\
  apply_affinity (column_affinity "number") (SqlText "twelve") = SqlText "twelve".
Proof. repeat split; reflexivity. Qed.

(** X14, witness: a team sent as a list, in the second entry. *)
Lemma unbindable_field_aborts_witness :
  exists e' s',
    run_loader (world_of (JObj [("1", JObj tom_brady);
                                ("2", JObj [("team", JArr [JStr "NE"])])]) 200 no_fault)
               after_old = (Raise e', s') /\
    same_rows after_old s'.
Proof.
  apply (unbindable_field_aborts
           (world_of (JObj [("1", JObj tom_brady);
                            ("2", JObj [("team", JArr [JStr "NE"])])]) 200 no_fault)
           after_old
           [("1", JObj tom_brady); ("2", JObj [("team", JArr [JStr "NE"])])]
           ("2", JObj [("team", JArr [JStr "NE"])]) "team");
    [reflexivity
    |apply list_elem_of_further, list_elem_of_here
    |unfold copied_columns; do 5 apply list_elem_of_further; apply list_elem_of_here
    |reflexivity].
Defined.

(** X16, witness: the same record; its list of positions is dumped. *)
Lemma serialised_columns_witness :
  col "data_json" numbered_row = SqlText (json_dumps "," ":" (JObj numbered)) /\
  col "fantasy_positions_json" numbered_row
  = match field_value ("12", JObj numbered) "fantasy_positions" with
    | JNull => SqlNull
    | _ => SqlText (json_dumps ", " ": "
                      (field_value ("12", JObj numbered) "fantasy_positions"))
    end.
Proof. apply (serialised_columns 100 ("12", JObj numbered) numbered_row numbered_row_of). Defined.

(** An empty list of positions is dumped too; only a missing field is NULL. *)
Example empty_positions_are_dumped :
  option_map (col "fantasy_positions_json")
    (players_rows (run_loader (world_of (JObj [("5", JObj [("fantasy_positions", JArr [])])])
                                 100 no_fault) new_file).2 !! 0%nat)
  = Some (SqlText "[]").
Proof. vm_compute. reflexivity. Qed.

(** X17, witness: the statement run twice over the row of player 999. *)
Lemma insert_player_idempotent_witness :
  exists s1,
    insert_player retired_values after_old = Ok s1 /\
    insert_player retired_values s1 = Ok s1.
Proof.
  eexists. split; [vm_compute; reflexivity|].
  apply (insert_player_idempotent retired_values after_old);
    vm_compute; reflexivity.
Defined.

(** X18, witness: the store after the first load. *)
Lemma reachable_rows_well_formed_witness :
  pk_unique (players_rows after_old) = true /\
  Forall well_formed_row (players_rows after_old).
Proof. apply (reachable_rows_well_formed after_old reachable_after_old). Defined.

End Closed.
